(** * Google Photos Clipboard Fix: content script and service worker

    A shallow embedding of the acquisition-and-delivery pipeline of the
    extension (content script: [upgradeUrl], [grabFromElement],
    [fetchViaBackground], [fetchViaDomCanvas], [fetchImageBlob], [ensurePng],
    [prefetch], [writeToClipboard] and the context-menu handler; service
    worker: the [fetchImage] message listener), with the properties of the
    design document proved about it.  Console output is not modelled. *)

From Stdlib Require Import String Ascii DecimalString.
From stdpp Require Import base option numbers list gmap.

(** ** JavaScript strings

    A JavaScript string is a sequence of UTF-16 code units.  Code units are
    kept as [N] (every value below 65536 is one); nothing below depends on
    the bound. *)

Definition code_unit := N.
Definition jsstring := list code_unit.

Fixpoint js (s : string) : jsstring :=
  match s with
  | EmptyString => []
  | String a s' => N_of_ascii a :: js s'
  end.
Arguments js _%_string : simpl never.

(** [a === b] on two strings. *)
Definition str_eqb (a b : jsstring) : bool := bool_decide (a = b).

(** [s.startsWith(p)], used to define [includes]. *)
Fixpoint starts_with (p s : jsstring) : bool :=
  match p, s with
  | [], _ => true
  | _ :: _, [] => false
  | a :: p', b :: s' => (a =? b)%N && starts_with p' s'
  end.

(** [s.includes(p)]: [p] occurs at some position of [s]. *)
Fixpoint includes (s p : jsstring) : bool :=
  starts_with p s ||
  match s with
  | [] => false
  | _ :: s' => includes s' p
  end.

(** ** Regular expressions

    The three regular-expression literals of the source, [/=w\d+.*$/],
    [/=s\d+.*$/] and [/-no-gm/], are sequences of one-character atoms,
    greedy [+] and [*] over an atom, and the end anchor.  They carry no
    flags: [\d] is an ASCII digit, [.] is anything but a line terminator and
    [$] is the end of the input.  [String.prototype.replace] with such a
    regex replaces the leftmost match. *)

Inductive atom :=
| AChar (c : code_unit)   (* a literal character *)
| ADigit                  (* \d *)
| ADot.                   (* . *)

Inductive node :=
| NAtom (a : atom)        (* x  *)
| NPlus (a : atom)        (* x+ *)
| NStar (a : atom)        (* x* *)
| NEnd.                   (* $  *)

Definition regex := list node.

Definition is_digit (c : code_unit) : bool := (48 <=? c)%N && (c <=? 57)%N.

(** LF, CR, LS and PS. *)
Definition is_line_terminator (c : code_unit) : bool :=
  (c =? 10)%N || (c =? 13)%N || (c =? 8232)%N || (c =? 8233)%N.

Definition atom_matches (a : atom) (c : code_unit) : bool :=
  match a with
  | AChar d => (c =? d)%N
  | ADigit => is_digit c
  | ADot => negb (is_line_terminator c)
  end.

(** Greedy repetition with backtracking: take one more character when the
    rest of the pattern then still matches, otherwise hand over to the
    continuation [k].  The result is the number of characters matched. *)
Fixpoint rx_star (a : atom) (k : jsstring -> option nat) (s : jsstring)
  : option nat :=
  match s with
  | c :: s' =>
      if atom_matches a c then
        match rx_star a k s' with
        | Some n => Some (S n)
        | None => k s
        end
      else k s
  | [] => k []
  end.

(** Match [r] at the head of [s]. *)
Fixpoint rx_exec (r : regex) (s : jsstring) : option nat :=
  match r with
  | [] => Some 0
  | NAtom a :: r' =>
      match s with
      | c :: s' => if atom_matches a c then S <$> rx_exec r' s' else None
      | [] => None
      end
  | NPlus a :: r' =>
      match s with
      | c :: s' =>
          if atom_matches a c then S <$> rx_star a (rx_exec r') s' else None
      | [] => None
      end
  | NStar a :: r' => rx_star a (rx_exec r') s
  | NEnd :: r' =>
      match s with
      | [] => rx_exec r' []
      | _ :: _ => None
      end
  end.

(** Leftmost match: its index and its length. *)
Fixpoint rx_search (r : regex) (s : jsstring) : option (nat * nat) :=
  match rx_exec r s with
  | Some n => Some (0, n)
  | None =>
      match s with
      | [] => None
      | _ :: s' => prod_map S id <$> rx_search r s'
      end
  end.

(** [s.replace(r, repl)] for a regex without the [g] flag and a replacement
    string without [$] patterns. *)
Definition replace (s : jsstring) (r : regex) (repl : jsstring) : jsstring :=
  match rx_search r s with
  | Some (i, n) => take i s ++ repl ++ drop (i + n) s
  | None => s
  end.

Definition lit (s : string) : regex := (fun c => NAtom (AChar c)) <$> js s.
Arguments lit _%_string : simpl never.
Arguments replace : simpl never.

(** [/=w\d+.*$/] and [/=s\d+.*$/]. *)
Definition re_size (c : string) : regex :=
  lit "=" ++ lit c ++ [NPlus ADigit; NStar ADot; NEnd].
Arguments re_size _%_string : simpl never.

(** [/-no-gm/] *)
Definition re_no_gm : regex := lit "-no-gm".

Definition not_line_terminator (c : code_unit) : bool :=
  negb (is_line_terminator c).

(** What [/=c\d+.*$/] accepts at the head of [s]: ['='], [c], a digit, and
    no line terminator up to the end.  [rx_exec_re_size] below proves that
    the matcher computes exactly this. *)
Definition size_suffix (c : code_unit) (s : jsstring) : bool :=
  match s with
  | e :: c' :: d :: rest =>
      (e =? 61)%N && (c' =? c)%N && is_digit d
      && forallb not_line_terminator rest
  | _ => false
  end.

(** ** URL Normalizer *)

Definition upgradeUrl (url : jsstring) : jsstring :=
  if includes url (js "=w") then replace url (re_size "w") (js "=w2048-h2048-no")
  else if includes url (js "=s") then replace url (re_size "s") (js "=s2048-no")
  else if includes url (js "=") then url
  else url ++ js "=w2048-h2048-no".

(** The two replacement strings. *)
Definition suffix_w : jsstring := js "=w2048-h2048-no".
Definition suffix_s : jsstring := js "=s2048-no".

(** A call [upgradeUrl(url)] as JavaScript evaluates it: [url.includes] on
    [null] or [undefined] throws a [TypeError] ([None] here), on a string the
    body runs and returns a string. *)
Inductive value :=
| VNull
| VUndefined
| VString (s : jsstring).

Definition call_upgradeUrl (url : value) : option jsstring :=
  match url with
  | VString s => Some (upgradeUrl s)
  | VNull | VUndefined => None
  end.

(** ** Values and effects *)

Record JsError := { err_name : jsstring; err_message : jsstring }.

(** [new Error(msg)] *)
Definition Error (msg : jsstring) : JsError :=
  {| err_name := js "Error"; err_message := msg |}.

Inductive result (A : Type) :=
| Ok (a : A)
| Throw (e : JsError).
Arguments Ok {A} a.
Arguments Throw {A} e.

Record Blob := { blob_type : jsstring; blob_data : list N }.

(** A reference to an [<img>] element: one of the page, or one made by
    [new Image()]. *)
Definition Element := nat.

Record Bitmap := { bmp_width : N; bmp_height : N; bmp_id : nat }.

(** What [fetch] resolves to: the status, and what [resp.blob()] settles
    to. *)
Record Response := { status : N; body : result Blob }.

(** [resp.ok] *)
Definition resp_ok (r : Response) : bool :=
  (200 <=? status r)%N && (status r <=? 299)%N.

(** The reply of the service worker: [{success: true, dataUrl}] or
    [{success: false, error}]. *)
Inductive FetchReply :=
| ReplyData (dataUrl : jsstring)
| ReplyError (error : jsstring).

(** What rendering an image into a canvas and exporting it gives: an
    exception (the canvas is tainted), a null blob, or the PNG blob. *)
Inductive canvas_outcome :=
| CanvasThrows (e : JsError)
| CanvasNull
| CanvasBlob (b : Blob).

(** The calls that leave the script, in the order they are made. *)
Inductive event :=
| EvGrab (imgEl : option Element)            (* grabFromElement(imgEl) *)
| EvSendMessage (url : jsstring)             (* chrome.runtime.sendMessage({action: 'fetchImage', url}) *)
| EvNetFetch (url : jsstring) (credentials : bool)  (* service worker: fetch(url, ...) *)
| EvImageLoad (url : jsstring)               (* new Image(), crossOrigin = 'anonymous', src = url *)
| EvDecode (b : Blob)                        (* createImageBitmap(blob) *)
| EvTimer                                    (* a timer callback runs *)
| EvWindowFocus                              (* window.focus() *)
| EvClipboardWrite (b : Blob)                (* navigator.clipboard.write([new ClipboardItem(...)]) *)
| EvToast (msg : jsstring) (isError : bool)  (* showToast(msg, isError) *)
| EvSendResponse (ok : bool).                (* sendResponse({ok}) *)

Definition trace := list event.

(** The requests of the service worker. *)
Definition is_net_fetch (ev : event) : bool :=
  match ev with
  | EvNetFetch _ _ => true
  | _ => false
  end.

Definition is_timer (ev : event) : bool :=
  match ev with
  | EvTimer => true
  | _ => false
  end.

Definition is_throw {A} (r : result A) : bool :=
  match r with
  | Throw _ => true
  | Ok _ => false
  end.

(** The one error the pipeline throws. *)
Definition all_methods_failed : JsError :=
  Error (js "All fetch methods failed").

(** The collaborators.  Every answer may depend on what has happened so
    far, so that the same request can be answered differently the second
    time and focus and time can change between two timer callbacks. *)
Record World := {
  (* the page *)
  el_src : trace -> Element -> jsstring;
  el_complete : trace -> Element -> bool;
  el_naturalWidth : trace -> Element -> N;
  canvas_toBlob : trace -> Element -> canvas_outcome;
  image_load : trace -> jsstring -> option Element;
  find_image : trace -> option Element;
  has_focus : trace -> bool;
  date_now : trace -> Z;
  clipboard_write : trace -> Blob -> option JsError;
  create_image_bitmap : trace -> Blob -> result Bitmap;
  convert_to_blob : trace -> Bitmap -> result Blob;
  data_url_fetch : trace -> jsstring -> result Blob;
  (* messaging: Some m when the message gets no answer and
     chrome.runtime.lastError.message is m *)
  runtime_port : trace -> option jsstring;
  (* the service worker *)
  net_fetch : trace -> jsstring -> bool -> result Response;
  read_as_data_url : trace -> Blob -> option jsstring
}.

(** Computations: the trace so far goes in, a value or an exception and the
    extended trace come out. *)
Definition M (A : Type) : Type := trace -> result A * trace.

Definition ret {A} (a : A) : M A := fun t => (Ok a, t).
Definition throw {A} (e : JsError) : M A := fun t => (Throw e, t).
Definition bind {A B} (c : M A) (k : A -> M B) : M B :=
  fun t => match c t with
           | (Ok a, t') => k a t'
           | (Throw e, t') => (Throw e, t')
           end.
(** [try { c } catch (e) { h e }] *)
Definition try_catch {A} (c : M A) (h : JsError -> M A) : M A :=
  fun t => match c t with
           | (Ok a, t') => (Ok a, t')
           | (Throw e, t') => h e t'
           end.
Definition map_result {A B} (f : A -> B) (c : M A) : M B :=
  bind c (fun a => ret (f a)).
(** Read the world. *)
Definition ask {A} (f : trace -> A) : M A := fun t => (Ok (f t), t).
(** Call a collaborator: it answers from the history before the call, and
    the call is recorded. *)
Definition call {A} (ev : event) (f : trace -> A) : M A :=
  fun t => (Ok (f t), t ++ [ev]).
Definition emit (ev : event) : M unit := call ev (fun _ => tt).
(** Await a promise that has settled to [r]. *)
Definition settle {A} (r : result A) : M A :=
  match r with Ok a => ret a | Throw e => throw e end.

Declare Scope js_scope.
Delimit Scope js_scope with js.
Notation "x <- c1 ;; c2" := (bind c1 (fun x => c2))
  (at level 100, c1 at next level, right associativity) : js_scope.
Notation "c1 ;; c2" := (bind c1 (fun _ => c2))
  (at level 100, right associativity) : js_scope.
Open Scope js_scope.

(** [${n}] for a number in a template literal. *)
Definition decimal (n : N) : jsstring :=
  js (NilZero.string_of_uint (N.to_uint n)).

(** [if (url)]: a URL is used when it is a non-empty string. *)
Definition truthy (url : option jsstring) : bool :=
  match url with
  | Some (_ :: _) => true
  | _ => false
  end.

(** [a || b] on URLs. *)
Definition or_url (a b : option jsstring) : option jsstring :=
  if truthy a then a else b.

(** The cache of the content script: [cachedBlob], [cachedUrl] and
    [targetImgElement]. *)
Record Cache := {
  cachedBlob : option Blob;
  cachedUrl : option jsstring;
  targetImgElement : option Element
}.

(** [{ok: true}] or [{ok: false, error}] *)
Record DeliveryResult := { ok : bool; error : option jsstring }.

Section Script.

Context (W : World).

Definition getUrlFromElement (imgEl : option Element) : M (option jsstring) :=
  match imgEl with
  | None => ret None
  | Some el =>
      src <- ask (fun t => el_src W t el);;
      match src with
      | [] => ret None
      | _ :: _ => ret (Some (upgradeUrl src))
      end
  end.

(** *** Image fetching: the three methods *)

(** Render [img] into a fresh canvas and export it: the [try] block shared
    by methods A and C. *)
Definition canvas_export (img : Element) : M Blob :=
  o <- ask (fun t => canvas_toBlob W t img);;
  match o with
  | CanvasThrows e => throw e
  | CanvasNull => throw (Error (js "toBlob null"))
  | CanvasBlob b => ret b
  end.

(** Method A: grab the pixels of the on-page [<img>] element. *)
Definition grabFromElement (imgEl : option Element) : M Blob :=
  emit (EvGrab imgEl);;
  match imgEl with
  | None => throw (Error (js "Image element not ready"))
  | Some el =>
      complete <- ask (fun t => el_complete W t el);;
      width <- ask (fun t => el_naturalWidth W t el);;
      if negb complete || (width =? 0)%N
      then throw (Error (js "Image element not ready"))
      else canvas_export el
  end.

(** [await fetch(url, {credentials: 'include'})] and [await fetch(url)] in
    the service worker. *)
Definition fetch (url : jsstring) (credentials : bool) : M Response :=
  r <- call (EvNetFetch url credentials) (fun t => net_fetch W t url credentials);;
  settle r.

(** The service worker's listener for [{action: 'fetchImage', url}].  It
    answers nothing when [url] is empty.  A [FileReader] error is answered
    by [onerror], before [onloadend]. *)
Definition onFetchImage (url : jsstring) : M (option FetchReply) :=
  match url with
  | [] => ret None
  | _ :: _ =>
      map_result Some
      (try_catch
        (resp <- try_catch (fetch url true) (fun e1 => fetch url false);;
         resp <- (if negb (resp_ok resp) then
                    if (status resp =? 403)%N then
                      let altUrl := replace url re_no_gm (js "-no") in
                      resp2 <- fetch altUrl true;;
                      if resp_ok resp2 then ret resp2
                      else throw (Error (js "HTTP 403 on both URL variants"))
                    else throw (Error (js "HTTP " ++ decimal (status resp)))
                  else ret resp);;
         blob <- settle (body resp);;
         d <- ask (fun t => read_as_data_url W t blob);;
         match d with
         | Some dataUrl => ret (ReplyData dataUrl)
         | None => ret (ReplyError (js "FileReader error"))
         end)
        (fun e => ret (ReplyError (err_message e))))
  end.

(** [chrome.runtime.sendMessage(msg, callback)]: what the callback sees as
    [chrome.runtime.lastError] and as [resp]. *)
Definition sendMessage (url : jsstring)
  : M (option jsstring * option FetchReply) :=
  port <- call (EvSendMessage url) (runtime_port W);;
  match port with
  | Some m => ret (Some m, None)
  | None =>
      reply <- onFetchImage url;;
      match reply with
      | Some r => ret (None, Some r)
      | None =>
          ret (Some (js "The message port closed before a response was received."),
               None)
      end
  end.

(** Method B: fetch through the service worker. *)
Definition fetchViaBackground (url : jsstring) : M Blob :=
  args <- sendMessage url;;
  let '(lastError, resp) := args in
  match lastError with
  | Some m => throw (Error m)
  | None =>
      match resp with
      | None => throw (Error (js "No response from background"))
      | Some (ReplyData dataUrl) =>
          r <- ask (fun t => data_url_fetch W t dataUrl);;
          settle r
      | Some (ReplyError error) => throw (Error error)
      end
  end.

(** Method C: load the URL into a new image with [crossOrigin]. *)
Definition fetchViaDomCanvas (url : jsstring) : M Blob :=
  img <- call (EvImageLoad url) (fun t => image_load W t url);;
  match img with
  | Some el => canvas_export el
  | None => throw (Error (js "Image load failed"))
  end.

(** [try { return await c; } catch (e) { warn(...) }]: the value when [c]
    succeeds, nothing when it throws. *)
Definition attempt {A} (c : M A) : M (option A) :=
  try_catch (map_result Some c) (fun _ => ret None).

(** Try the methods in order: A, then B, then C. *)
Definition fetchImageBlob (imgEl : option Element) (url : option jsstring)
  : M Blob :=
  a <- (if bool_decide (is_Some imgEl) then attempt (grabFromElement imgEl)
        else ret None);;
  match a with
  | Some blob => ret blob
  | None =>
      b <- (if truthy url then attempt (fetchViaBackground (default [] url))
            else ret None);;
      match b with
      | Some blob => ret blob
      | None =>
          c <- (if truthy url then attempt (fetchViaDomCanvas (default [] url))
                else ret None);;
          match c with
          | Some blob => ret blob
          | None => throw all_methods_failed
          end
      end
  end.

(** *** Format Normalizer *)

Definition ensurePng (blob : Blob) : M Blob :=
  if str_eqb (blob_type blob) (js "image/png") then ret blob
  else
    bmp <- call (EvDecode blob) (fun t => create_image_bitmap W t blob);;
    bmp <- settle bmp;;
    png <- ask (fun t => convert_to_blob W t bmp);;
    settle png.

(** *** Clipboard write with focus handling *)

Definition showToast (msg : jsstring) (isError : bool) : M unit :=
  emit (EvToast msg isError).

Definition writeToClipboard (blob : Blob) : M DeliveryResult :=
  focused <- ask (has_focus W);;
  (if negb focused then
     emit EvWindowFocus;;
     emit EvTimer              (* setTimeout(r, 100) *)
   else ret tt);;
  r <- call (EvClipboardWrite blob) (fun t => clipboard_write W t blob);;
  match r with
  | None => ret {| ok := true; error := None |}
  | Some e =>
      ret {| ok := false;
             error := Some (err_name e ++ js ": " ++ err_message e) |}
  end.

(** The toast texts; the first character of each is U+2713 or U+2717. *)
Definition toast_copied : jsstring := 10003%N :: js " Image copied!".
Definition toast_failed (reason : jsstring) : jsstring :=
  10007%N :: js " " ++ reason.
Definition toast_lost_focus : jsstring :=
  toast_failed
    (js "Page lost focus " ++ 8212%N :: js " try refreshing the page and retry").

(** *** Focus reacquisition

    The promise of the context-menu handler: [start = Date.now()], then a
    callback every 50 ms that resolves [true] when the document has focus
    and [false] when it has not and more than 2000 ms have passed.  [fuel]
    bounds the number of callbacks looked at; [None] is a promise that is
    still pending after them. *)
Fixpoint awaitFocus (fuel : nat) (start : Z) : M (option bool) :=
  match fuel with
  | 0 => ret None
  | S fuel' =>
      emit EvTimer;;
      focused <- ask (has_focus W);;
      if focused then ret (Some true)
      else
        now <- ask (date_now W);;
        if (now - start >? 2000)%Z then ret (Some false)
        else awaitFocus fuel' start
  end.

(** *** Context-menu handler *)

(** The [try] block of the handler and its [catch]. *)
Definition deliver (c : Cache) (srcUrl : option jsstring) : M unit :=
  try_catch
    (blob <- match cachedBlob c with
             | Some blob => ret blob
             | None =>
                 imgEl <- match targetImgElement c with
                          | Some el => ret (Some el)
                          | None => ask (find_image W)
                          end;;
                 url <- (if truthy (cachedUrl c) then ret (cachedUrl c)
                         else
                           u <- getUrlFromElement imgEl;;
                           ret (or_url u srcUrl));;
                 blob <- fetchImageBlob imgEl url;;
                 ensurePng blob
             end;;
     result <- writeToClipboard blob;;
     showToast (if ok result then toast_copied
                else toast_failed (default [] (error result)))
               (negb (ok result));;
     emit (EvSendResponse (ok result)))
    (fun ex =>
       showToast (toast_failed (err_message ex)) true;;
       emit (EvSendResponse false)).

(** The listener for [{action: 'copyImageFromContextMenu', srcUrl}];
    [None] while the focus wait is pending. *)
Definition onCopyImageFromContextMenu (fuel : nat) (c : Cache)
    (srcUrl : option jsstring) : M (option unit) :=
  focused0 <- ask (has_focus W);;
  if negb focused0 then
    start <- ask (date_now W);;
    focused <- awaitFocus fuel start;;
    match focused with
    | None => ret None
    | Some false =>
        showToast toast_lost_focus true;;
        emit (EvSendResponse false);;
        ret (Some tt)
    | Some true => map_result Some (deliver c srcUrl)
    end
  else map_result Some (deliver c srcUrl).

End Script.

(** ** Vocabulary of the properties *)

(** [c] only adds events that satisfy [P]. *)
Definition emits (P : event -> bool) {A} (c : M A) : Prop :=
  forall t, exists evs, snd (c t) = t ++ evs /\ forallb P evs = true.

(** One URL stage of the pipeline: skipped without a URL, and a failure
    of the method is caught. *)
Definition stage (url : option jsstring) (method : jsstring -> M Blob)
    (t : trace) : result (option Blob) * trace :=
  if truthy url then attempt (method (default [] url)) t else (Ok None, t).

(** The trace after the stage of method A. *)
Definition after_A (imgEl : option Element) (t : trace) : trace :=
  if bool_decide (is_Some imgEl) then t ++ [EvGrab imgEl] else t.

(** An interaction has a target: an element or a URL. *)
Definition has_target (imgEl : option Element) (url : option jsstring)
  : Prop :=
  is_Some imgEl \/ truthy url = true.

(** ** Pre-fetch and the single-slot cache

    [prefetch] is an async function: it runs up to its first [await], is
    suspended while the image is fetched and normalized, and is resumed with
    the outcome.  A page holds the cache and the suspended calls, each with
    the [imgEl] and [url] it was called with. *)

Record Page := {
  cache : Cache;
  pending : gmap nat (option Element * option jsstring);
  next_id : nat
}.

(** [prefetch(imgEl, url)] up to [await fetchImageBlob(imgEl, url)]. *)
Definition prefetch (imgEl : option Element) (url : option jsstring)
    (p : Page) : Page :=
  if negb (bool_decide (is_Some imgEl)) && negb (truthy url) then p
  else if bool_decide (url = cachedUrl (cache p))
          && bool_decide (is_Some (cachedBlob (cache p))) then p
  else
    {| cache := {| cachedBlob := None;
                   cachedUrl := url;
                   targetImgElement := imgEl |};
       pending := <[next_id p := (imgEl, url)]> (pending p);
       next_id := S (next_id p) |}.

(** The rest of the call [id], once [ensurePng(await fetchImageBlob(...))]
    has settled to [r]. *)
Definition prefetch_resume (id : nat) (r : result Blob) (p : Page) : Page :=
  match pending p !! id with
  | None => p
  | Some (_, url) =>
      let c := cache p in
      {| cache :=
           match r with
           | Ok png =>
               if bool_decide (cachedUrl c = url)
               then {| cachedBlob := Some png;
                       cachedUrl := cachedUrl c;
                       targetImgElement := targetImgElement c |}
               else c
           | Throw _ => c
           end;
         pending := delete id (pending p);
         next_id := next_id p |}
  end.

(** What the event loop runs on a page. *)
Inductive page_event :=
| Interact (imgEl : option Element) (url : option jsstring)
| Settled (id : nat) (r : result Blob).

Definition page_step (p : Page) (ev : page_event) : Page :=
  match ev with
  | Interact imgEl url => prefetch imgEl url p
  | Settled id r => prefetch_resume id r p
  end.

Definition page_run (p : Page) (evs : list page_event) : Page :=
  foldl page_step p evs.

Definition is_settled (ev : page_event) : bool :=
  match ev with
  | Settled _ _ => true
  | Interact _ _ => false
  end.

(** Resumed calls and further calls for the URL [u]. *)
Definition keeps_key (u : option jsstring) (ev : page_event) : bool :=
  match ev with
  | Settled _ _ => true
  | Interact _ url => bool_decide (url = u)
  end.

(** ** The requests of the service worker *)

(** The requests of the listener's inner [try]: with credentials, and
    without when that one threw. *)
Definition first_requests (W : World) (url : jsstring) (t : trace)
  : list event :=
  if is_throw (net_fetch W t url true)
  then [EvNetFetch url true; EvNetFetch url false]
  else [EvNetFetch url true].

(** The response the listener holds after them, if any. *)
Definition first_response (W : World) (url : jsstring) (t : trace)
  : option Response :=
  match net_fetch W t url true with
  | Ok r => Some r
  | Throw _ =>
      match net_fetch W (t ++ [EvNetFetch url true]) url false with
      | Ok r => Some r
      | Throw _ => None
      end
  end.

(** [altUrl] *)
Definition variant_url (url : jsstring) : jsstring :=
  replace url re_no_gm (js "-no").

(** ** Finding the image

    [findImageElement] walks up from an element and falls back on the
    largest visible image of the page.  The numbers of a bounding rectangle
    are doubles; the code only compares them, so each is kept as the
    rational it denotes, and the product [r.width * r.height] is taken as
    the browser computed it. *)

Definition double := Qcanon.Qc.

(** [a > b] *)
Definition gt (a b : double) : bool := bool_decide (Qcanon.Qclt b a).

Record Dom := {
  tagName : Element -> jsstring;
  parentElement : Element -> option Element;
  (* document.querySelectorAll('img[src*="googleusercontent.com"],
     img[src*="ggpht.com"]'), in document order *)
  google_images : list Element;
  rect_width : Element -> double;
  rect_area : Element -> double
}.

(** [el.tagName === 'IMG' && el.src && (el.src.includes(...) || ...)] *)
Definition is_google_image (d : Dom) (src : Element -> jsstring)
    (el : Element) : bool :=
  str_eqb (tagName d el) (js "IMG")
  && negb (bool_decide (src el = []))
  && (includes (src el) (js "googleusercontent.com")
      || includes (src el) (js "ggpht.com")).

(** The [for] loop: [n] elements of the chain of parents are looked at. *)
Fixpoint find_in_ancestors (d : Dom) (src : Element -> jsstring) (n : nat)
    (el : option Element) : option Element :=
  match n, el with
  | S n', Some e =>
      if is_google_image d src e then Some e
      else find_in_ancestors d src n' (parentElement d e)
  | _, _ => None
  end.

(** One step of the [forEach]: [best] and [bestArea]. *)
Definition larger (d : Dom) (acc : option Element * double) (img : Element)
  : option Element * double :=
  let a := rect_area d img in
  if gt a (snd acc) && gt (rect_width d img) (Qc_of_Z 100)
  then (Some img, a) else acc.

Definition largest_visible (d : Dom) : option Element :=
  fst (foldl (larger d) (None, Qc_of_Z 0) (google_images d)).

(** What the [forEach] holds after the images [seen]: one of the largest
    area among those wider than 100, if there is any of positive area. *)
Definition best_of (d : Dom) (seen : list Element)
    (acc : option Element * double) : Prop :=
  gt (Qc_of_Z 0) (snd acc) = false
  /\ (forall img, img ∈ seen ->
        gt (rect_width d img) (Qc_of_Z 100) = true ->
        gt (rect_area d img) (snd acc) = false)
  /\ match fst acc with
     | Some best =>
         best ∈ seen
         /\ gt (rect_width d best) (Qc_of_Z 100) = true
         /\ gt (rect_area d best) (Qc_of_Z 0) = true
         /\ snd acc = rect_area d best
     | None => snd acc = Qc_of_Z 0
     end.

Definition findImageElement (d : Dom) (src : Element -> jsstring)
    (element : option Element) : option Element :=
  match find_in_ancestors d src 15 element with
  | Some el => Some el
  | None => largest_visible d
  end.

(** The [n]-th parent of [el]. *)
Fixpoint nth_ancestor (d : Dom) (el : Element) (n : nat) : option Element :=
  match n with
  | 0 => Some el
  | S n' =>
      match parentElement d el with
      | Some parent => nth_ancestor d parent n'
      | None => None
      end
  end.

(** [onInteract(e)], for [mousedown], [click] and [contextmenu]; the page
    after the synchronous part of [prefetch]. *)
Definition onInteract (W : World) (d : Dom) (target : option Element)
    (p : Page) : M Page :=
  imgEl <- ask (fun t => findImageElement d (el_src W t) target);;
  match imgEl with
  | Some _ =>
      url <- getUrlFromElement W imgEl;;
      ret (prefetch imgEl url p)
  | None => ret p
  end.

(** ** The Cmd+C handler

    The [keydown] listener up to its promise-based write: it leaves the
    event alone, or is done after the eager write or the "no image" toast,
    or goes on to [writeWithPromise(imgEl, url)], which is not modelled. *)

Record KeyEvent := { ctrlKey : bool; metaKey : bool; key : jsstring }.

Record Keyboard := {
  (* window.getSelection(), and its toString() *)
  selection_text : trace -> option jsstring;
  active_element : trace -> option Element
}.

Inductive KeyOutcome :=
| KeyIgnored                 (* returned before preventDefault() *)
| KeyDone                    (* default prevented, handler finished *)
| KeyLazy (imgEl : option Element) (url : option jsstring).

(** WhiteSpace and LineTerminator, what [trim] strips. *)
Definition is_white_space (c : code_unit) : bool :=
  bool_decide
    (c ∈ [9; 10; 11; 12; 13; 32; 160; 5760; 8192; 8193; 8194; 8195; 8196;
          8197; 8198; 8199; 8200; 8201; 8202; 8232; 8233; 8239; 8287;
          12288; 65279]%N).

Fixpoint drop_white_space (s : jsstring) : jsstring :=
  match s with
  | c :: s' => if is_white_space c then drop_white_space s' else s
  | [] => []
  end.

(** [s.trim()] *)
Definition trim (s : jsstring) : jsstring :=
  reverse (drop_white_space (reverse (drop_white_space s))).

Definition toast_no_image : jsstring :=
  toast_failed (js "No image found " ++ 8212%N :: js " click a photo first").

(** U+23F3, the text, U+2026 *)
Definition toast_fetching : jsstring :=
  9203%N :: js " Fetching image" ++ [8230%N].

Definition onKeydown (W : World) (d : Dom) (K : Keyboard) (e : KeyEvent)
    (c : Cache) : M KeyOutcome :=
  if negb ((ctrlKey e || metaKey e) && str_eqb (key e) (js "c"))
  then ret KeyIgnored
  else
    selection <- ask (selection_text K);;
    if match selection with
       | Some s => bool_decide (0 < length (trim s))
       | None => false
       end
    then ret KeyIgnored
    else
      match cachedBlob c with
      | Some blob =>
          result <- writeToClipboard W blob;;
          showToast (if ok result then toast_copied
                     else toast_failed (default [] (error result)))
                    (negb (ok result));;
          ret KeyDone
      | None =>
          imgEl <- match targetImgElement c with
                   | Some el => ret (Some el)
                   | None =>
                       ask (fun t => findImageElement d (el_src W t)
                                       (active_element K t))
                   end;;
          url <- (if truthy (cachedUrl c) then ret (cachedUrl c)
                  else getUrlFromElement W imgEl);;
          if negb (truthy url) && negb (bool_decide (is_Some imgEl))
          then showToast toast_no_image true;; ret KeyDone
          else showToast toast_fetching false;; ret (KeyLazy imgEl url)
      end.


(** ** Events of the handlers *)

Definition is_send_response (ev : event) : bool :=
  match ev with
  | EvSendResponse _ => true
  | _ => false
  end.

Definition not_send_response (ev : event) : bool :=
  negb (is_send_response ev).

(** What [writeToClipboard] does before the write: nothing in a focused
    document, [window.focus()] and a timer otherwise. *)
Definition focus_attempt (W : World) (t : trace) : list event :=
  if has_focus W t then [] else [EvWindowFocus; EvTimer].

(** [{ok: true}] or [{ok: false, error: `${e.name}: ${e.message}`}] *)
Definition write_result (r : option JsError) : DeliveryResult :=
  match r with
  | None => {| ok := true; error := None |}
  | Some e =>
      {| ok := false;
         error := Some (err_name e ++ js ": " ++ err_message e) |}
  end.

(** The toast after a write. *)
Definition result_toast (result : DeliveryResult) : event :=
  EvToast (if ok result then toast_copied
           else toast_failed (default [] (error result)))
          (negb (ok result)).

(** ** Sample pages

    Concrete collaborators on which the properties below are exercised: a
    page whose image taints the canvas, a network given by [net], and a
    document whose focus is given by [focus]; the clock advances 50 ms with
    every timer callback. *)

Definition png_blob : Blob :=
  {| blob_type := js "image/png"; blob_data := [137; 80; 78; 71]%N |}.

Definition jpeg_blob : Blob :=
  {| blob_type := js "image/jpeg"; blob_data := [255; 216; 255]%N |}.

Definition security_error : JsError :=
  {| err_name := js "SecurityError";
     err_message := js "Tainted canvases may not be exported." |}.

Definition count_timers (t : trace) : nat :=
  length (List.filter is_timer t).

Definition sample_world
    (net : trace -> jsstring -> bool -> result Response)
    (focus : trace -> bool) : World :=
  {| el_src := fun _ _ => js "https://lh3.googleusercontent.com/photo=w400-h300";
     el_complete := fun _ _ => true;
     el_naturalWidth := fun _ _ => 400%N;
     canvas_toBlob := fun _ _ => CanvasThrows security_error;
     image_load := fun _ _ => None;
     find_image := fun _ => Some 0;
     has_focus := focus;
     date_now := fun t => (1700000000000 + 50 * Z.of_nat (count_timers t))%Z;
     clipboard_write := fun _ _ => None;
     create_image_bitmap :=
       fun _ _ => Ok {| bmp_width := 400; bmp_height := 300; bmp_id := 0 |};
     convert_to_blob := fun _ _ => Ok png_blob;
     data_url_fetch := fun _ _ => Ok jpeg_blob;
     runtime_port := fun _ => None;
     net_fetch := net;
     read_as_data_url := fun _ _ => Some (js "data:image/jpeg;base64,/9j/") |}.

(** The first request is answered 403, the later ones 200. *)
Definition net_403_then_ok (t : trace) (url : jsstring) (credentials : bool)
  : result Response :=
  if forallb (fun ev => negb (is_net_fetch ev)) t
  then Ok {| status := 403; body := Ok jpeg_blob |}
  else Ok {| status := 200; body := Ok jpeg_blob |}.

(** Every request fails. *)
Definition net_offline (t : trace) (url : jsstring) (credentials : bool)
  : result Response :=
  Throw {| err_name := js "TypeError"; err_message := js "Failed to fetch" |}.

Definition never_focused (t : trace) : bool := false.

(** Focus comes back at the 41st timer callback, 2050 ms after the start. *)
Definition focused_late (t : trace) : bool := 41 <=? count_timers t.

Definition url_A : jsstring := js "https://lh3.googleusercontent.com/a=w2048-h2048-no".
Definition url_B : jsstring := js "https://lh3.googleusercontent.com/b=w2048-h2048-no".
Definition url_gm : jsstring := js "https://lh3.googleusercontent.com/a=w2048-h2048-no-gm".

Definition empty_cache : Cache :=
  {| cachedBlob := None; cachedUrl := None; targetImgElement := None |}.

Definition warm_cache : Cache :=
  {| cachedBlob := Some png_blob;
     cachedUrl := Some (js "https://lh3.googleusercontent.com/photo=w2048-h2048-no");
     targetImgElement := Some 0 |}.

Definition empty_page : Page :=
  {| cache := empty_cache; pending := ∅; next_id := 0 |}.

Definition warm_page : Page :=
  {| cache := warm_cache; pending := ∅; next_id := 1 |}.

(** A page whose images can be read: as [W], with the canvas export
    given by [canvas]. *)
Definition with_canvas (W : World)
    (canvas : trace -> Element -> canvas_outcome) : World :=
  {| el_src := el_src W;
     el_complete := el_complete W;
     el_naturalWidth := el_naturalWidth W;
     canvas_toBlob := canvas;
     image_load := image_load W;
     find_image := find_image W;
     has_focus := has_focus W;
     date_now := date_now W;
     clipboard_write := clipboard_write W;
     create_image_bitmap := create_image_bitmap W;
     convert_to_blob := convert_to_blob W;
     data_url_fetch := data_url_fetch W;
     runtime_port := runtime_port W;
     net_fetch := net_fetch W;
     read_as_data_url := read_as_data_url W |}.

Definition always_focused (t : trace) : bool := true.

(** Focus comes back at the third timer callback. *)
Definition focused_at_third (t : trace) : bool := 3 <=? count_timers t.

(** A photo page: a [DIV] 0 inside the [IMG] 1 ... inside [DIV]s 2 and 3;
    a lone [DIV] 10; the images 1 (640 wide, area 307200), 4 (1280 wide,
    area 921600) and 5 (80 wide, area 6400). *)
Definition sample_dom : Dom :=
  {| tagName := fun el => if bool_decide (el ∈ [1; 4; 5]) then js "IMG"
                          else js "DIV";
     parentElement :=
       fun el => if bool_decide (el < 3) then Some (S el) else None;
     google_images := [1; 4; 5];
     rect_width :=
       fun el => Qc_of_Z (match el with 1 => 640 | 4 => 1280 | _ => 80 end);
     rect_area :=
       fun el => Qc_of_Z (match el with
                          | 1 => 307200
                          | 4 => 921600
                          | _ => 6400
                          end) |}.

(** A page whose only image is collapsed: 200 wide and of no height. *)
Definition collapsed_dom : Dom :=
  {| tagName := fun _ => js "IMG";
     parentElement := fun _ => None;
     google_images := [6];
     rect_width := fun _ => Qc_of_Z 200;
     rect_area := fun _ => Qc_of_Z 0 |}.

Definition copy_chord : KeyEvent :=
  {| ctrlKey := false; metaKey := true; key := js "c" |}.

Definition text_selected : Keyboard :=
  {| selection_text := fun _ => Some (js " some text ");
     active_element := fun _ => None |}.


Definition photo : jsstring := js "https://lh3.googleusercontent.com/photo".

Definition net_404 (t : trace) (url : jsstring) (credentials : bool)
  : result Response :=
  Ok {| status := 404; body := Ok jpeg_blob |}.

Definition readable_page : World :=
  with_canvas (sample_world net_offline never_focused)
    (fun _ _ => CanvasBlob png_blob).

Definition double_click : list page_event :=
  [Interact (Some 1) (Some url_B); Settled 0 (Ok png_blob);
   Settled 1 (Throw all_methods_failed); Settled 2 (Ok jpeg_blob)].

Definition sample_src : Element -> jsstring :=
  el_src (sample_world net_offline never_focused) [].

(** * Properties *)

(** ** The regular expressions of the URL Normalizer *)

Section SizeRegex.

Lemma is_digit_not_line_terminator c :
  is_digit c = true -> not_line_terminator c = true.
Proof.
  unfold is_digit, not_line_terminator, is_line_terminator.
  intros H. apply andb_prop in H as [H1 H2].
  apply N.leb_le in H1. apply N.leb_le in H2.
  repeat match goal with
         | |- context [(c =? ?k)%N] =>
             destruct (N.eqb_spec c k); [lia|]
         end.
  reflexivity.
Qed.

Lemma rx_star_dot_end s :
  rx_star ADot (rx_exec [NEnd]) s
  = if forallb not_line_terminator s then Some (length s) else None.
Proof.
  induction s as [|c s IH]; [reflexivity|].
  cbn [rx_star atom_matches forallb length].
  fold (not_line_terminator c).
  destruct (not_line_terminator c); [|reflexivity].
  rewrite IH. destruct (forallb not_line_terminator s); reflexivity.
Qed.

Lemma rx_star_digit_dot_end s :
  rx_star ADigit (rx_star ADot (rx_exec [NEnd])) s
  = if forallb not_line_terminator s then Some (length s) else None.
Proof.
  induction s as [|c s IH]; [reflexivity|].
  cbn [rx_star atom_matches forallb length].
  destruct (is_digit c) eqn:Hd.
  - rewrite (is_digit_not_line_terminator c Hd), IH.
    destruct (forallb not_line_terminator s) eqn:Hs; [reflexivity|].
    fold (not_line_terminator c).
    rewrite (is_digit_not_line_terminator c Hd), rx_star_dot_end, Hs.
    reflexivity.
  - apply (rx_star_dot_end (c :: s)).
Qed.

(** The backtracking matcher on [/=c\d+.*$/] decides [size_suffix], and a
    match runs to the end of the string. *)
Lemma rx_exec_re_size (c : code_unit) (s : jsstring) :
  rx_exec [NAtom (AChar 61%N); NAtom (AChar c); NPlus ADigit; NStar ADot; NEnd] s
  = if size_suffix c s then Some (length s) else None.
Proof.
  destruct s as [|e [|c' [|d rest]]];
    cbn [rx_exec atom_matches size_suffix];
    repeat (match goal with
            | |- context [(?a =? ?b)%N] => destruct (a =? b)%N
            | |- context [is_digit ?a] => destruct (is_digit a) eqn:?
            end; try reflexivity); try reflexivity.
  pose proof (rx_star_digit_dot_end rest) as E.
  destruct (forallb not_line_terminator rest);
    (etransitivity;
     [exact (f_equal (fun x => S <$> (S <$> (S <$> x))) E)|reflexivity]).
Qed.

Lemma size_suffix_intro (c d : code_unit) (rest : jsstring) :
  is_digit d = true ->
  forallb not_line_terminator rest = true ->
  size_suffix c (61%N :: c :: d :: rest) = true.
Proof.
  intros Hd Hrest. cbn [size_suffix].
  rewrite !N.eqb_refl, Hd, Hrest. reflexivity.
Qed.

Lemma size_suffix_inv (c : code_unit) (s : jsstring) :
  size_suffix c s = true ->
  exists d rest,
    s = 61%N :: c :: d :: rest
    /\ is_digit d = true
    /\ forallb not_line_terminator rest = true.
Proof.
  destruct s as [|e [|c' [|d rest]]]; cbn [size_suffix]; try discriminate.
  intros H.
  apply andb_prop in H as [H Hrest].
  apply andb_prop in H as [H Hd].
  apply andb_prop in H as [He Hc].
  apply N.eqb_eq in He as ->. apply N.eqb_eq in Hc as ->.
  exists d, rest. auto.
Qed.

Variable c : code_unit.
Variable re : regex.
Variable repl : jsstring.
Hypothesis re_spec :
  forall s, rx_exec re s = if size_suffix c s then Some (length s) else None.
Hypothesis c_not_eq : c <> 61%N.
Hypothesis c_not_lt : not_line_terminator c = true.
Hypothesis repl_suffix : size_suffix c repl = true.

Lemma size_suffix_no_line_terminator s :
  size_suffix c s = true -> forallb not_line_terminator s = true.
Proof.
  intros (d & rest & -> & Hd & Hrest)%size_suffix_inv.
  cbn [forallb].
  rewrite c_not_lt, (is_digit_not_line_terminator d Hd), Hrest.
  reflexivity.
Qed.

(** Replacing a matching tail by the replacement creates no match further
    to the left. *)
Lemma size_suffix_tail a (p q : jsstring) :
  size_suffix c q = true ->
  size_suffix c (a :: p ++ repl) = true ->
  size_suffix c (a :: p ++ q) = true.
Proof.
  intros Hq.
  destruct (size_suffix_inv _ _ repl_suffix) as (d & rest & Hr & Hd & Hrest).
  rewrite Hr.
  intros (d' & rest' & E & Hd' & Hrest')%size_suffix_inv.
  destruct p as [|x [|y p']]; simplify_eq/=.
  rewrite forallb_app in Hrest'. apply andb_prop in Hrest' as [Hp' _].
  apply size_suffix_intro; [assumption|].
  rewrite forallb_app, Hp'. apply size_suffix_no_line_terminator, Hq.
Qed.

Lemma rx_search_spec u i n :
  rx_search re u = Some (i, n) ->
  i + n = length u /\ size_suffix c (drop i u) = true.
Proof using re_spec.
  clear c_not_eq c_not_lt repl_suffix.
  revert i n. induction u as [|a u IH]; intros i n; simpl; rewrite re_spec.
  - simpl. intros H. discriminate H.
  - destruct (size_suffix c (a :: u)) eqn:Ha.
    + intros [= <- <-]. split; [reflexivity|exact Ha].
    + destruct (rx_search re u) as [[i' n']|]; simpl;
        [|intros H; discriminate H].
      intros [= <- <-]. destruct (IH _ _ eq_refl) as [H1 H2].
      split; [simpl; lia|exact H2].
Qed.

(** The leftmost match stays where it is after the replacement. *)
Lemma rx_search_replaced u i n :
  rx_search re u = Some (i, n) ->
  rx_search re (take i u ++ repl) = Some (i, length repl).
Proof.
  revert i n. induction u as [|a u IH]; intros i n; simpl; rewrite re_spec.
  - simpl. discriminate.
  - destruct (size_suffix c (a :: u)) eqn:Ha.
    + intros [= <- <-]. simpl.
      destruct repl; simpl; rewrite re_spec, repl_suffix; reflexivity.
    + destruct (rx_search re u) as [[i' n']|] eqn:Hs; simpl; [|discriminate].
      intros [= <- <-]. simpl. rewrite re_spec.
      destruct (size_suffix c (a :: take i' u ++ repl)) eqn:Hb.
      * apply rx_search_spec in Hs as [_ Hd].
        apply (size_suffix_tail a (take i' u) (drop i' u) Hd) in Hb.
        rewrite take_drop in Hb. congruence.
      * rewrite (IH _ _ eq_refl). reflexivity.
Qed.

(** So a replaced string is a fixed point of the replacement. *)
Lemma replace_replace u :
  replace (replace u re repl) re repl = replace u re repl.
Proof.
  unfold replace at 2 3.
  destruct (rx_search re u) as [[i n]|] eqn:Hs.
  - destruct (rx_search_spec _ _ _ Hs) as [Hlen _].
    rewrite (drop_ge u (i + n)), app_nil_r by lia.
    unfold replace. rewrite (rx_search_replaced _ _ _ Hs).
    rewrite take_app_length' by (rewrite length_take; lia).
    rewrite drop_ge, app_nil_r; [reflexivity|].
    rewrite length_app, length_take. lia.
  - unfold replace. rewrite Hs. reflexivity.
Qed.

Lemma replace_shape u :
  replace u re repl = u
  \/ exists i d rest,
       replace u re repl = take i u ++ repl
       /\ drop i u = 61%N :: c :: d :: rest.
Proof using re_spec.
  clear c_not_eq c_not_lt repl_suffix.
  unfold replace. destruct (rx_search re u) as [[i n]|] eqn:Hs; [|by left].
  right. destruct (rx_search_spec _ _ _ Hs) as [Hlen Hsuf].
  apply size_suffix_inv in Hsuf as (d & rest & Hdrop & _).
  exists i, d, rest.
  rewrite (drop_ge u (i + n)), app_nil_r by lia. split; [reflexivity|exact Hdrop].
Qed.

(** A string without ['='] gets its first match where the suffix is
    appended. *)
Lemma rx_search_appended u :
  includes u [61%N] = false ->
  rx_search re (u ++ repl) = Some (length u, length repl).
Proof.
  induction u as [|a u IH]; cbn [includes starts_with app length].
  - intros _. destruct repl; simpl; rewrite re_spec, repl_suffix; reflexivity.
  - intros H. apply orb_false_elim in H as [Ha Hu].
    cbn [rx_search]. rewrite re_spec.
    destruct (size_suffix c (a :: u ++ repl)) eqn:E.
    + apply size_suffix_inv in E as (? & ? & [= -> _] & _).
      rewrite N.eqb_refl in Ha. discriminate.
    + rewrite (IH Hu). reflexivity.
Qed.

End SizeRegex.

(** ** URL Normalizer *)

Section UrlNormalizer.

Lemma re_size_w_spec s :
  rx_exec (re_size "w") s
  = if size_suffix 119%N s then Some (length s) else None.
Proof. exact (rx_exec_re_size 119%N s). Qed.

Lemma re_size_s_spec s :
  rx_exec (re_size "s") s
  = if size_suffix 115%N s then Some (length s) else None.
Proof. exact (rx_exec_re_size 115%N s). Qed.

Lemma includes_app_r (pre x p : jsstring) :
  includes x p = true -> includes (pre ++ x) p = true.
Proof.
  intros H. induction pre as [|a pre IH]; [exact H|].
  cbn [app includes]. rewrite IH. apply orb_true_r.
Qed.

Lemma includes_head (s : jsstring) (a : code_unit) (p : jsstring) :
  includes s (a :: p) = true -> includes s [a] = true.
Proof.
  induction s as [|b s IH]; cbn [includes starts_with]; [discriminate|].
  intros [H|H]%orb_prop.
  - apply andb_prop in H as [-> _]. reflexivity.
  - rewrite (IH H). apply orb_true_r.
Qed.

(** Changing what follows an ['='] into something that does not start with
    ["w"] brings no ["=w"] into the string. *)
Lemma includes_eq_w_tail (p q x : jsstring) :
  includes (p ++ 61%N :: q) (js "=w") = false ->
  includes (61%N :: x) (js "=w") = false ->
  includes (p ++ 61%N :: x) (js "=w") = false.
Proof.
  intros Hq Hx. induction p as [|y p IH]; [exact Hx|].
  cbn [app includes] in Hq |- *.
  apply orb_false_elim in Hq as [Hhead Htail].
  rewrite (IH Htail), orb_false_r.
  destruct p; exact Hhead.
Qed.

Lemma upgradeUrl_fixed_w (p : jsstring) :
  replace (p ++ suffix_w) (re_size "w") suffix_w = p ++ suffix_w ->
  upgradeUrl (p ++ suffix_w) = p ++ suffix_w.
Proof.
  intros H. unfold upgradeUrl.
  rewrite (includes_app_r p suffix_w (js "=w")) by reflexivity.
  exact H.
Qed.

(** C9. The URL Normalizer is idempotent: normalizing a normalized URL
    changes nothing, [upgradeUrl (upgradeUrl u) = upgradeUrl u] for every
    string [u]. *)
Theorem upgradeUrl_idempotent (u : jsstring) :
  upgradeUrl (upgradeUrl u) = upgradeUrl u.
Proof.
  unfold upgradeUrl at 2 3.
  destruct (includes u (js "=w")) eqn:Hw.
  - (* "=w": the first [replace] *)
    pose proof (replace_replace 119%N (re_size "w") suffix_w re_size_w_spec
                  ltac:(intros H; discriminate H) eq_refl eq_refl u) as Hrr.
    destruct (replace_shape 119%N (re_size "w") suffix_w re_size_w_spec u)
      as [E|(i & d & rest & E & _)]; fold suffix_w; rewrite E in *.
    + unfold upgradeUrl. rewrite Hw. exact Hrr.
    + apply upgradeUrl_fixed_w, Hrr.
  - destruct (includes u (js "=s")) eqn:Hs.
    + (* "=s": the second [replace] *)
      pose proof (replace_replace 115%N (re_size "s") suffix_s re_size_s_spec
                    ltac:(intros H; discriminate H) eq_refl eq_refl u) as Hrr.
      destruct (replace_shape 115%N (re_size "s") suffix_s re_size_s_spec u)
        as [E|(i & d & rest & E & Hdrop)]; fold suffix_s; rewrite E in *.
      * unfold upgradeUrl. rewrite Hw, Hs. exact Hrr.
      * unfold upgradeUrl.
        assert (includes (take i u ++ suffix_s) (js "=w") = false) as ->.
        { apply (includes_eq_w_tail (take i u) (115%N :: d :: rest));
            [|reflexivity].
          pose proof (take_drop i u) as Htd. rewrite Hdrop in Htd.
          rewrite <- Htd in Hw. exact Hw. }
        rewrite (includes_app_r (take i u) suffix_s (js "=s")) by reflexivity.
        exact Hrr.
    + destruct (includes u (js "=")) eqn:He.
      * unfold upgradeUrl. rewrite Hw, Hs, He. reflexivity.
      * (* no "=": the suffix is appended, and is then the first match *)
        apply upgradeUrl_fixed_w. unfold replace.
        rewrite (rx_search_appended 119%N (re_size "w") suffix_w
                   re_size_w_spec eq_refl u He).
        rewrite take_app_length, drop_ge, app_nil_r;
          [reflexivity|rewrite length_app; lia].
Qed.

(** C4 as stated does not hold: a URL that carries another option after
    ['='] has none of the size syntaxes, and yet it is returned as it is,
    with no size suffix. *)
Lemma upgradeUrl_other_option_counterexample :
  let u := js "https://lh3.googleusercontent.com/photo=d" in
  rx_search (re_size "w") u = None
  /\ rx_search (re_size "s") u = None
  /\ upgradeUrl u = u
  /\ upgradeUrl u <> u ++ suffix_w
  /\ includes (upgradeUrl u) (js "2048") = false.
Proof.
  vm_compute. repeat split; try reflexivity. intros H. discriminate H.
Qed.

(** C4, amended.  On every string the call returns a string (it does not
    throw).  A URL without any ['='] gets the default suffix
    ["=w2048-h2048-no"] appended; a URL with an ['='] in which neither
    [/=w\d+.*$/] nor [/=s\d+.*$/] matches is returned unchanged. *)
Theorem upgradeUrl_default_suffix (u : jsstring) :
  call_upgradeUrl (VString u) = Some (upgradeUrl u)
  /\ (includes u (js "=") = false -> upgradeUrl u = u ++ suffix_w)
  /\ (includes u (js "=") = true ->
      rx_search (re_size "w") u = None ->
      rx_search (re_size "s") u = None ->
      upgradeUrl u = u).
Proof.
  split; [reflexivity|]. split.
  - intros He. unfold upgradeUrl.
    destruct (includes u (js "=w")) eqn:Hw.
    { apply (includes_head u 61%N (js "w")) in Hw.
      change (includes u (js "=") = true) in Hw. congruence. }
    destruct (includes u (js "=s")) eqn:Hs.
    { apply (includes_head u 61%N (js "s")) in Hs.
      change (includes u (js "=") = true) in Hs. congruence. }
    rewrite He. reflexivity.
  - intros He Hw Hs. unfold upgradeUrl, replace. rewrite Hw, Hs, He.
    repeat match goal with |- context [if ?b then _ else _] => destruct b end;
      reflexivity.
Qed.

Lemma upgradeUrl_default_suffix_witness :
  upgradeUrl (js "https://lh3.googleusercontent.com/photo")
  = js "https://lh3.googleusercontent.com/photo" ++ suffix_w
  /\ upgradeUrl (js "https://lh3.googleusercontent.com/photo=d")
     = js "https://lh3.googleusercontent.com/photo=d".
Proof.
  split.
  - apply (upgradeUrl_default_suffix
             (js "https://lh3.googleusercontent.com/photo")).
    reflexivity.
  - apply (upgradeUrl_default_suffix
             (js "https://lh3.googleusercontent.com/photo=d"));
      reflexivity.
Defined.

End UrlNormalizer.

(** ** Acquisition Pipeline *)

Section Acquisition.

Variable W : World.

Ltac run := cbv [bind try_catch map_result ret throw ask call emit settle].

Lemma attempt_eq {A} (c : M A) (t : trace) :
  attempt c t
  = match c t with
    | (Ok a, t') => (Ok (Some a), t')
    | (Throw _, t') => (Ok None, t')
    end.
Proof. unfold attempt. run. destruct (c t) as [[a|e] t']; reflexivity. Qed.

(** Each method records its own call and nothing else of the page. *)
Lemma grabFromElement_trace imgEl t :
  snd (grabFromElement W imgEl t) = t ++ [EvGrab imgEl].
Proof.
  unfold grabFromElement, canvas_export. run.
  destruct imgEl as [el|]; [|reflexivity]. cbn.
  destruct (negb _ || _); [reflexivity|].
  destruct (canvas_toBlob W _ el); reflexivity.
Qed.

Lemma fetchViaDomCanvas_trace url t :
  snd (fetchViaDomCanvas W url t) = t ++ [EvImageLoad url].
Proof.
  unfold fetchViaDomCanvas, canvas_export. run. cbn.
  destruct (image_load W t url) as [el|]; [|reflexivity].
  destruct (canvas_toBlob W _ el); reflexivity.
Qed.

Lemma emits_ret P {A} (a : A) : emits P (ret a).
Proof. intros t. exists []. split; [symmetry; apply app_nil_r|done]. Qed.

Lemma emits_throw P {A} e : emits P (@throw A e).
Proof. intros t. exists []. split; [symmetry; apply app_nil_r|done]. Qed.

Lemma emits_ask P {A} (f : trace -> A) : emits P (ask f).
Proof. intros t. exists []. split; [symmetry; apply app_nil_r|done]. Qed.

Lemma emits_settle P {A} (r : result A) : emits P (settle r).
Proof. destruct r; [apply emits_ret|apply emits_throw]. Qed.

Lemma emits_call (P : event -> bool) {A} ev (f : trace -> A) :
  P ev = true -> emits P (call ev f).
Proof. intros H t. exists [ev]. cbn. rewrite H. done. Qed.

Lemma emits_bind P {A B} (c : M A) (k : A -> M B) :
  emits P c -> (forall a, emits P (k a)) -> emits P (bind c k).
Proof.
  intros Hc Hk t. unfold bind. destruct (Hc t) as (evs1 & H1 & P1).
  destruct (c t) as [[a|e] t1]; cbn in H1; subst t1; [|by exists evs1].
  destruct (Hk a (t ++ evs1)) as (evs2 & H2 & P2).
  exists (evs1 ++ evs2). rewrite H2, app_assoc, forallb_app, P1, P2. done.
Qed.

Lemma emits_try_catch P {A} (c : M A) (h : JsError -> M A) :
  emits P c -> (forall e, emits P (h e)) -> emits P (try_catch c h).
Proof.
  intros Hc Hh t. unfold try_catch. destruct (Hc t) as (evs1 & H1 & P1).
  destruct (c t) as [[a|e] t1]; cbn in H1; subst t1; [by exists evs1|].
  destruct (Hh e (t ++ evs1)) as (evs2 & H2 & P2).
  exists (evs1 ++ evs2). rewrite H2, app_assoc, forallb_app, P1, P2. done.
Qed.

Lemma emits_map_result P {A B} (f : A -> B) (c : M A) :
  emits P c -> emits P (map_result f c).
Proof. intros Hc. apply emits_bind; [exact Hc|intros a; apply emits_ret]. Qed.

Create HintDb emits discriminated.
#[local] Hint Resolve emits_ret emits_throw emits_ask emits_settle
  emits_bind emits_try_catch emits_map_result : emits.

Ltac emits_step :=
  lazymatch goal with
  | |- emits _ (match ?x with _ => _ end) => destruct x
  | |- emits _ (call _ _) => apply emits_call; reflexivity
  | |- forall _, _ => intro
  | |- emits _ _ => solve [auto 2 with emits] || eapply emits_bind
                    || eapply emits_try_catch
  end.

Lemma onFetchImage_emits url : emits is_net_fetch (onFetchImage W url).
Proof. unfold onFetchImage, fetch. repeat emits_step. Qed.

Lemma fetchViaBackground_eq url t :
  fetchViaBackground W url t
  = match runtime_port W t with
    | Some m => (Throw (Error m), t ++ [EvSendMessage url])
    | None =>
        match onFetchImage W url (t ++ [EvSendMessage url]) with
        | (Ok (Some (ReplyData d)), t') => (data_url_fetch W t' d, t')
        | (Ok (Some (ReplyError error)), t') => (Throw (Error error), t')
        | (Ok None, t') =>
            (Throw (Error (js "The message port closed before a response was received.")),
             t')
        | (Throw e, t') => (Throw e, t')
        end
    end.
Proof.
  cbv [fetchViaBackground sendMessage]. run.
  destruct (runtime_port W t) as [m|]; [reflexivity|].
  destruct (onFetchImage W url _) as [[[[d|error]|]|e] t']; try reflexivity.
  destruct (data_url_fetch W t' d); reflexivity.
Qed.

(** Method B sends its message first; what follows are requests of the
    service worker. *)
Lemma fetchViaBackground_trace url t :
  exists evs,
    snd (fetchViaBackground W url t) = t ++ EvSendMessage url :: evs
    /\ forallb is_net_fetch evs = true.
Proof.
  rewrite fetchViaBackground_eq.
  destruct (runtime_port W t) as [m|]; [exists []; done|].
  destruct (onFetchImage_emits url (t ++ [EvSendMessage url]))
    as (evs & Ht & Hn).
  exists evs. split; [|exact Hn].
  destruct (onFetchImage W url _) as [[[[d|error]|]|e] t']; cbn in Ht |- *;
    subst t'; rewrite <- ?app_assoc; done.
Qed.

Lemma fetchImageBlob_eq imgEl url t :
  fetchImageBlob W imgEl url t
  = match (if bool_decide (is_Some imgEl)
           then attempt (grabFromElement W imgEl) t else (Ok None, t)) with
    | (Ok (Some blob), tA) => (Ok blob, tA)
    | (Throw e, tA) => (Throw e, tA)
    | (Ok None, tA) =>
        match stage url (fetchViaBackground W) tA with
        | (Ok (Some blob), tB) => (Ok blob, tB)
        | (Throw e, tB) => (Throw e, tB)
        | (Ok None, tB) =>
            match stage url (fetchViaDomCanvas W) tB with
            | (Ok (Some blob), tC) => (Ok blob, tC)
            | (Throw e, tC) => (Throw e, tC)
            | (Ok None, tC) => (Throw all_methods_failed, tC)
            end
        end
    end.
Proof.
  unfold fetchImageBlob, stage, all_methods_failed.
  destruct (bool_decide (is_Some imgEl)), (truthy url); cbv [bind ret throw];
    repeat match goal with
           | |- context [attempt ?c ?t0] =>
               destruct (attempt c t0) as [[[?|]|?] ?]
           end; reflexivity.
Qed.

(** C2. With an element and no URL ([url] is [null], or empty), only
    method A runs: the one call recorded is [grabFromElement], no message
    goes to the service worker, no cross-origin image is loaded, and when
    method A fails the pipeline reports exhaustion at once. *)
Theorem fetchImageBlob_element_only (el : Element) (url : option jsstring)
    (t : trace) :
  truthy url = false ->
  fetchImageBlob W (Some el) url t
  = match fst (grabFromElement W (Some el) t) with
    | Ok blob => (Ok blob, t ++ [EvGrab (Some el)])
    | Throw _ => (Throw all_methods_failed, t ++ [EvGrab (Some el)])
    end.
Proof.
  intros Hurl. rewrite fetchImageBlob_eq. unfold stage. rewrite Hurl.
  rewrite bool_decide_eq_true_2 by (by eexists).
  rewrite attempt_eq.
  pose proof (grabFromElement_trace (Some el) t) as Ht.
  destruct (grabFromElement W (Some el) t) as [[blob|e] tA]; cbn in Ht |- *;
    subst tA; reflexivity.
Qed.

(** C3. With a URL and no element, method A is not attempted: the first
    call recorded is the message of method B, followed by the requests of
    the service worker; method C's image load comes after them, and only
    when method B has failed. *)
Theorem fetchImageBlob_url_only (u : jsstring) (t : trace) :
  u <> [] ->
  exists evs,
    forallb is_net_fetch evs = true
    /\ snd (fetchViaBackground W u t) = t ++ EvSendMessage u :: evs
    /\ fetchImageBlob W None (Some u) t
       = match fst (fetchViaBackground W u t) with
         | Ok blob => (Ok blob, t ++ EvSendMessage u :: evs)
         | Throw _ =>
             let tB := t ++ EvSendMessage u :: evs in
             match fst (fetchViaDomCanvas W u tB) with
             | Ok blob => (Ok blob, tB ++ [EvImageLoad u])
             | Throw _ => (Throw all_methods_failed, tB ++ [EvImageLoad u])
             end
         end.
Proof.
  intros Hu. destruct (fetchViaBackground_trace u t) as (evs & Ht & Hn).
  exists evs. split; [exact Hn|]. split; [exact Ht|].
  rewrite fetchImageBlob_eq. unfold stage.
  assert (truthy (Some u) = true) as -> by (destruct u; done).
  rewrite bool_decide_eq_false_2 by (by intros [? ?]).
  change (default [] (Some u)) with u. rewrite attempt_eq.
  destruct (fetchViaBackground W u t) as [[blob|e] tB]; cbn [fst snd] in Ht |- *;
    subst tB; [reflexivity|].
  rewrite attempt_eq. cbv zeta.
  pose proof (fetchViaDomCanvas_trace u (t ++ EvSendMessage u :: evs)) as HC.
  destruct (fetchViaDomCanvas W u _) as [[blob|e'] tC]; cbn [fst snd] in HC |- *;
    subst tC; reflexivity.
Qed.

Lemma stage_A_failed imgEl t :
  (is_Some imgEl -> is_throw (fst (grabFromElement W imgEl t)) = true) ->
  (if bool_decide (is_Some imgEl)
   then attempt (grabFromElement W imgEl) t else (Ok None, t))
  = (Ok None, after_A imgEl t).
Proof.
  intros HA. unfold after_A. case_bool_decide as Hel; [|reflexivity].
  rewrite attempt_eq. specialize (HA Hel).
  pose proof (grabFromElement_trace imgEl t) as Ht.
  destruct (grabFromElement W imgEl t) as [[blob|e] tA];
    cbn [fst snd] in *; subst tA; [discriminate|reflexivity].
Qed.

(** C6. When every applicable method fails (method A if there is an
    element, methods B and C if there is a URL), the pipeline throws one
    error, ["All fetch methods failed"], whatever the errors of the methods
    were. *)
Theorem fetchImageBlob_exhausted (imgEl : option Element)
    (url : option jsstring) (t : trace) :
  let u := default [] url in
  let tA := after_A imgEl t in
  let tB := if truthy url then snd (fetchViaBackground W u tA) else tA in
  (is_Some imgEl -> is_throw (fst (grabFromElement W imgEl t)) = true) ->
  (truthy url = true -> is_throw (fst (fetchViaBackground W u tA)) = true) ->
  (truthy url = true -> is_throw (fst (fetchViaDomCanvas W u tB)) = true) ->
  fst (fetchImageBlob W imgEl url t) = Throw all_methods_failed.
Proof.
  intros u tA tB HA HB HC. subst tB.
  rewrite fetchImageBlob_eq, (stage_A_failed _ _ HA). fold tA.
  unfold stage. destruct (truthy url); [|reflexivity].
  specialize (HB eq_refl). specialize (HC eq_refl). fold u.
  rewrite attempt_eq.
  destruct (fetchViaBackground W u tA) as [[blob|e] tB];
    cbn [fst snd] in *; [discriminate|].
  rewrite attempt_eq.
  destruct (fetchViaDomCanvas W u tB) as [[blob|e'] tC];
    cbn [fst snd] in *; [discriminate|reflexivity].
Qed.

(** X10. Whatever the three methods throw, the only error that leaves the
    pipeline is ["All fetch methods failed"]. *)
Lemma fetchImageBlob_throws_only_aggregate imgEl url t e :
  fst (fetchImageBlob W imgEl url t) = Throw e -> e = all_methods_failed.
Proof.
  rewrite fetchImageBlob_eq. unfold stage.
  destruct (bool_decide (is_Some imgEl)), (truthy url);
    repeat (rewrite attempt_eq;
            match goal with
            | |- context [grabFromElement W ?a ?b] =>
                destruct (grabFromElement W a b) as [[?|?] ?]
            | |- context [fetchViaBackground W ?a ?b] =>
                destruct (fetchViaBackground W a b) as [[?|?] ?]
            | |- context [fetchViaDomCanvas W ?a ?b] =>
                destruct (fetchViaDomCanvas W a b) as [[?|?] ?]
            end);
    cbn [fst]; congruence.
Qed.

(** C5. Method A is unavailable or has failed and there is a URL.  When
    the first request of the service worker is answered with status 403
    and its request for the URL with ["-no-gm"] replaced by ["-no"]
    succeeds (an ok status, a body that is read and encoded, and a data URL
    that the content script reads back), the pipeline returns the blob of
    method B; the calls recorded are the message and the two requests, and
    no cross-origin image load. *)
Theorem fetchImageBlob_403_variant (imgEl : option Element) (u : jsstring)
    (t : trace) (r1 r2 : Response) (blob : Blob) (dataUrl : jsstring)
    (png : Blob) :
  let tA := after_A imgEl t in
  let altUrl := replace u re_no_gm (js "-no") in
  let t1 := tA ++ [EvSendMessage u] in
  let t2 := t1 ++ [EvNetFetch u true] in
  let t3 := t2 ++ [EvNetFetch altUrl true] in
  u <> [] ->
  (is_Some imgEl -> is_throw (fst (grabFromElement W imgEl t)) = true) ->
  runtime_port W tA = None ->
  net_fetch W t1 u true = Ok r1 ->
  status r1 = 403%N ->
  net_fetch W t2 altUrl true = Ok r2 ->
  resp_ok r2 = true ->
  body r2 = Ok blob ->
  read_as_data_url W t3 blob = Some dataUrl ->
  data_url_fetch W t3 dataUrl = Ok png ->
  fetchImageBlob W imgEl (Some u) t = (Ok png, t3)
  /\ forall url, EvImageLoad url ∈ t3 -> EvImageLoad url ∈ t.
Proof.
  intros tA altUrl t1 t2 t3 Hu HA Hport H1 H403 H2 Hok Hbody Hread Hdata.
  split.
  - rewrite fetchImageBlob_eq, (stage_A_failed _ _ HA). fold tA.
    unfold stage.
    assert (truthy (Some u) = true) as -> by (destruct u; done).
    change (default [] (Some u)) with u.
    rewrite attempt_eq, fetchViaBackground_eq, Hport. fold t1.
    assert (onFetchImage W u t1 = (Ok (Some (ReplyData dataUrl)), t3)) as ->.
    { unfold onFetchImage. destruct u as [|c u']; [done|].
      cbv [fetch]. run. rewrite H1.
      assert (resp_ok r1 = false) as ->
        by (unfold resp_ok; rewrite H403; reflexivity).
      cbn [negb]. rewrite H403. cbn [N.eqb Pos.eqb].
      fold t2. fold altUrl. rewrite H2, Hok, Hbody. fold t3.
      rewrite Hread. reflexivity. }
    rewrite Hdata. reflexivity.
  - intros url Hin. subst t3 t2 t1 tA. unfold after_A in Hin.
    case_bool_decide;
      rewrite !elem_of_app, !list_elem_of_singleton in Hin;
      intuition congruence.
Qed.

End Acquisition.

(** ** Format Normalizer *)

Section FormatNormalizer.

Variable W : World.

(** C8. A blob whose type is already ["image/png"] is returned as it is,
    the same blob, and nothing is decoded; [createImageBitmap] is called,
    and the blob converted, only for a blob of another type. *)
Theorem ensurePng_png_unchanged (blob : Blob) (t : trace) :
  (blob_type blob = js "image/png" -> ensurePng W blob t = (Ok blob, t))
  /\ (blob_type blob <> js "image/png" ->
      snd (ensurePng W blob t) = t ++ [EvDecode blob]).
Proof.
  unfold ensurePng, str_eqb. split; intros H.
  - rewrite bool_decide_eq_true_2 by exact H. reflexivity.
  - rewrite bool_decide_eq_false_2 by exact H.
    cbv [bind call settle ret throw ask].
    destruct (create_image_bitmap W t blob) as [bmp|e]; [|reflexivity].
    destruct (convert_to_blob W _ bmp); reflexivity.
Qed.

End FormatNormalizer.

(** ** Focus Reacquisition and the context-menu handler *)

Section FocusWait.

Variable W : World.

Lemma ticks_snoc (t : trace) (n : nat) :
  (t ++ [EvTimer]) ++ repeat EvTimer n = t ++ repeat EvTimer (S n).
Proof. rewrite <- app_assoc. reflexivity. Qed.

(** The wait resolves [false] at the first callback that finds more than
    2000 ms gone, when no callback up to that one finds the document
    focused. *)
Lemma awaitFocus_timeout (K : nat) :
  forall (fuel : nat) (start : Z) (t : trace),
    K < fuel ->
    (forall k, k <= K -> has_focus W (t ++ repeat EvTimer (S k)) = false) ->
    (date_now W (t ++ repeat EvTimer (S K)) - start > 2000)%Z ->
    exists k,
      k <= K
      /\ awaitFocus W fuel start t
         = (Ok (Some false), t ++ repeat EvTimer (S k)).
Proof.
  induction K as [|K IH]; intros fuel start t Hfuel Hfocus Hnow;
    (destruct fuel as [|fuel]; [lia|]);
    cbn [awaitFocus]; cbv [bind emit call ask ret];
    pose proof (Hfocus 0 ltac:(lia)) as Hfirst; cbn [repeat] in Hfirst;
    rewrite Hfirst;
    destruct (date_now W (t ++ [EvTimer]) - start >? 2000)%Z eqn:Hgt;
    try (exists 0; split; [lia|reflexivity]).
  - cbn [repeat] in Hnow. lia.
  - destruct (IH fuel start (t ++ [EvTimer])) as (k & Hk & Hrun).
    + lia.
    + intros k Hk. rewrite ticks_snoc. apply Hfocus. lia.
    + rewrite ticks_snoc. exact Hnow.
    + exists (S k). split; [lia|]. rewrite Hrun, ticks_snoc. reflexivity.
Qed.

(** C7, amended.  The document is unfocused when the handler starts.  When
    no timer callback, up to and including the first one that finds more
    than 2000 ms gone, sees the document focused, the focus wait resolves
    [false]; the handler then shows the error toast and answers
    [{ok: false}], and the clipboard is not written: the recorded calls are
    the timer callbacks, the toast and the response. *)
Theorem onCopyImageFromContextMenu_focus_timeout (fuel : nat) (c : Cache)
    (srcUrl : option jsstring) (t : trace) (K : nat) :
  has_focus W t = false ->
  K < fuel ->
  (forall k, k <= K -> has_focus W (t ++ repeat EvTimer (S k)) = false) ->
  (date_now W (t ++ repeat EvTimer (S K)) - date_now W t > 2000)%Z ->
  exists k,
    k <= K
    /\ awaitFocus W fuel (date_now W t) t
       = (Ok (Some false), t ++ repeat EvTimer (S k))
    /\ onCopyImageFromContextMenu W fuel c srcUrl t
       = (Ok (Some tt),
          t ++ repeat EvTimer (S k)
            ++ [EvToast toast_lost_focus true; EvSendResponse false]).
Proof.
  intros H0 Hfuel Hfocus Hnow.
  destruct (awaitFocus_timeout K fuel (date_now W t) t Hfuel Hfocus Hnow)
    as (k & Hk & Hrun).
  exists k. split; [exact Hk|]. split; [exact Hrun|].
  unfold onCopyImageFromContextMenu, showToast.
  cbv [bind emit call ask ret]. rewrite H0. cbn [negb]. rewrite Hrun.
  rewrite <- !app_assoc. reflexivity.
Qed.

End FocusWait.

(** ** Pre-fetch and the single-slot cache *)

Section RasterCache.

Lemma prefetch_resume_spec (id : nat) (r : result Blob) (p : Page) :
  let p' := prefetch_resume id r p in
  cachedUrl (cache p') = cachedUrl (cache p)
  /\ (forall j x, pending p' !! j = Some x -> pending p !! j = Some x)
  /\ (cachedBlob (cache p') = cachedBlob (cache p)
      \/ exists el png,
           r = Ok png
           /\ pending p !! id = Some (el, cachedUrl (cache p))
           /\ cachedBlob (cache p') = Some png).
Proof.
  unfold prefetch_resume.
  destruct (pending p !! id) as [[el url]|] eqn:Hid; cbn; [|by auto].
  split; [|split].
  - destruct r as [png|e]; [case_bool_decide|]; reflexivity.
  - intros j x. rewrite lookup_delete.
    case_decide; [discriminate|auto].
  - destruct r as [png|e]; [|by left].
    case_bool_decide as Hurl; [|by left].
    right. exists el, png. rewrite Hurl. auto.
Qed.

(** While only suspended calls are resumed, the key of the slot stays, and
    the slot changes only to a blob that was delivered to a call suspended
    with that key. *)
Lemma settled_run_spec (evs : list page_event) :
  forall p : Page,
    forallb is_settled evs = true ->
    let p' := page_run p evs in
    cachedUrl (cache p') = cachedUrl (cache p)
    /\ (forall j x, pending p' !! j = Some x -> pending p !! j = Some x)
    /\ (cachedBlob (cache p') = cachedBlob (cache p)
        \/ exists id el png,
             Settled id (Ok png) ∈ evs
             /\ pending p !! id = Some (el, cachedUrl (cache p))
             /\ cachedBlob (cache p') = Some png).
Proof.
  induction evs as [|ev evs IH]; intros p Hevs; [cbn; auto|].
  cbn [forallb] in Hevs. apply andb_prop in Hevs as [Hev Hevs].
  destruct ev as [|id r]; [discriminate|].
  cbn [page_run foldl page_step].
  destruct (prefetch_resume_spec id r p) as (Hurl1 & Hpend1 & Hblob1).
  destruct (IH (prefetch_resume id r p) Hevs) as (Hurl & Hpend & Hblob).
  fold (page_run (prefetch_resume id r p) evs) in *.
  split; [congruence|]. split; [auto|].
  destruct Hblob as [Hsame|(id' & el & png & Hin & Hid' & Hpng)].
  - destruct Hblob1 as [Hsame1|(el & png & -> & Hid & Hpng)].
    + left. congruence.
    + right. exists id, el, png. rewrite Hsame.
      split; [apply elem_of_cons; by left|auto].
  - right. exists id', el, png.
    split; [apply elem_of_cons; by right|].
    rewrite Hurl1 in Hid'. auto.
Qed.

(** C10. When the cache holds a blob for [u], a [prefetch] call for [u]
    changes nothing: the blob, the URL and the element stay, and no call is
    suspended on a new fetch. *)
Theorem prefetch_cached_noop (p : Page) (imgEl : option Element)
    (u : option jsstring) :
  cachedUrl (cache p) = u ->
  is_Some (cachedBlob (cache p)) ->
  prefetch imgEl u p = p.
Proof.
  intros Hu Hblob. unfold prefetch.
  destruct (negb _ && negb _); [reflexivity|].
  rewrite (bool_decide_eq_true_2 _ (eq_sym Hu)).
  rewrite (bool_decide_eq_true_2 _ Hblob). reflexivity.
Qed.

Lemma prefetch_cases imgEl url (p : Page) :
  prefetch imgEl url p = p
  \/ prefetch imgEl url p
     = {| cache := {| cachedBlob := None;
                      cachedUrl := url;
                      targetImgElement := imgEl |};
          pending := <[next_id p := (imgEl, url)]> (pending p);
          next_id := S (next_id p) |}.
Proof.
  unfold prefetch.
  destruct (negb _ && negb _); [by left|].
  destruct (bool_decide _ && bool_decide _); [by left|by right].
Qed.

Lemma prefetch_cachedUrl (p : Page) imgEl url :
  has_target imgEl url -> cachedUrl (cache (prefetch imgEl url p)) = url.
Proof.
  intros Htarget. unfold prefetch.
  assert (negb (bool_decide (is_Some imgEl)) && negb (truthy url) = false)
    as ->.
  { destruct Htarget as [Hel| ->]; [|apply andb_false_r].
    rewrite (bool_decide_eq_true_2 _ Hel). reflexivity. }
  case_bool_decide as Hurl; [|destruct (bool_decide (is_Some _)); done].
  destruct (bool_decide (is_Some _)); cbn; done.
Qed.

(** A call for a new key clears the slot and is suspended on its fetch. *)
Lemma prefetch_new_key (p : Page) imgEl url :
  has_target imgEl url ->
  cachedUrl (cache p) <> url ->
  prefetch imgEl url p
  = {| cache := {| cachedBlob := None;
                   cachedUrl := url;
                   targetImgElement := imgEl |};
       pending := <[next_id p := (imgEl, url)]> (pending p);
       next_id := S (next_id p) |}.
Proof.
  intros Htarget Hkey. unfold prefetch.
  assert (negb (bool_decide (is_Some imgEl)) && negb (truthy url) = false)
    as ->.
  { destruct Htarget as [Hel| ->]; [|apply andb_false_r].
    rewrite (bool_decide_eq_true_2 _ Hel). reflexivity. }
  rewrite bool_decide_eq_false_2 by congruence. reflexivity.
Qed.

(** C1. Two [prefetch] calls for targets with different URLs, A then B,
    on any page; afterwards suspended calls are resumed, in any order and
    with any outcomes (A's fetch settles after B's call).  Then the slot is
    keyed by B's URL, and it is empty or holds a blob that was delivered to
    a call suspended with B's URL.  A's call, when it started a fetch, is
    suspended with A's URL under the id [next_id p0]; the stored blob is not
    what that call delivers. *)
Theorem prefetch_discards_stale_fetch (p0 : Page)
    (elA : option Element) (uA : option jsstring)
    (elB : option Element) (uB : option jsstring)
    (evs : list page_event) :
  uA <> uB ->
  has_target elA uA ->
  has_target elB uB ->
  forallb is_settled evs = true ->
  let pA := prefetch elA uA p0 in
  let pB := prefetch elB uB pA in
  let p := page_run pB evs in
  (pA = p0 \/ pending pB !! next_id p0 = Some (elA, uA))
  /\ cachedUrl (cache p) = uB
  /\ (cachedBlob (cache p) = None
      \/ exists id el png,
           cachedBlob (cache p) = Some png
           /\ Settled id (Ok png) ∈ evs
           /\ pending pB !! id = Some (el, uB)
           /\ (pA = p0 \/ id <> next_id p0)).
Proof.
  intros Hneq HA HB Hevs pA pB p.
  assert (cachedUrl (cache pA) = uA) as HkeyA
    by apply prefetch_cachedUrl, HA.
  assert (pB = {| cache := {| cachedBlob := None;
                              cachedUrl := uB;
                              targetImgElement := elB |};
                  pending := <[next_id pA := (elB, uB)]> (pending pA);
                  next_id := S (next_id pA) |}) as HpB
    by (apply prefetch_new_key; [exact HB|congruence]).
  assert (pA = p0 \/ pending pB !! next_id p0 = Some (elA, uA)) as HcallA.
  { destruct (prefetch_cases elA uA p0) as [E|E]; [by left|].
    right. rewrite HpB. fold pA in E. rewrite E. cbn [pending next_id].
    rewrite lookup_insert_ne by lia. apply lookup_insert_eq. }
  split; [exact HcallA|]. split.
  - destruct (settled_run_spec evs pB Hevs) as (Hurl & _ & _).
    fold p in Hurl. rewrite Hurl, HpB. reflexivity.
  - destruct (settled_run_spec evs pB Hevs) as (_ & _ & Hblob).
    fold p in Hblob.
    destruct Hblob as [Hsame|(id & el & png & Hin & Hid & Hpng)].
    + left. rewrite Hsame, HpB. reflexivity.
    + right. exists id, el, png.
      replace (cachedUrl (cache pB)) with uB in Hid by (rewrite HpB; done).
      repeat (split; [assumption|]).
      destruct HcallA as [?|HidA]; [by left|].
      right. intros ->. congruence.
Qed.

Lemma page_step_keeps_key (u : option jsstring) (ev : page_event)
    (p : Page) :
  cachedUrl (cache p) = u ->
  keeps_key u ev = true ->
  let p' := page_step p ev in
  cachedUrl (cache p') = u
  /\ next_id p <= next_id p'
  /\ (forall id el, pending p' !! id = Some (el, u) ->
        pending p !! id = Some (el, u) \/ next_id p <= id)
  /\ (cachedBlob (cache p') = cachedBlob (cache p)
      \/ cachedBlob (cache p') = None
      \/ exists id el png,
           ev = Settled id (Ok png)
           /\ pending p !! id = Some (el, u)
           /\ cachedBlob (cache p') = Some png).
Proof.
  intros Hkey Hev. destruct ev as [imgEl url|id r]; cbn [page_step].
  - cbn in Hev. apply bool_decide_eq_true_1 in Hev as ->. unfold prefetch.
    destruct (negb _ && negb _); [by auto 6|].
    destruct (bool_decide _ && bool_decide _); [by auto 6|].
    cbn. split; [reflexivity|]. split; [lia|]. split; [|by auto].
    intros id el. rewrite lookup_insert.
    case_decide; [subst id; auto|auto].
  - destruct (prefetch_resume_spec id r p) as (Hurl & Hpend & Hblob).
    split; [congruence|]. split.
    { unfold prefetch_resume. destruct (pending p !! id) as [[? ?]|]; done. }
    split; [by auto|].
    destruct Hblob as [Hsame|(el & png & -> & Hid & Hpng)]; [by left|].
    right. right. exists id, el, png. rewrite <- Hkey. auto.
Qed.

(** The same with repeated calls for B's target (a click is a [mousedown]
    and a [click] event, each of which calls [prefetch]): as long as the
    calls are for one URL, the slot holds nothing but what it held at the
    start or a blob delivered to a call suspended with that URL, or begun for
    it later. *)
Lemma keeps_key_run_spec (u : option jsstring) (evs : list page_event) :
  forall p : Page,
    cachedUrl (cache p) = u ->
    forallb (keeps_key u) evs = true ->
    let p' := page_run p evs in
    cachedUrl (cache p') = u
    /\ next_id p <= next_id p'
    /\ (cachedBlob (cache p') = cachedBlob (cache p)
        \/ cachedBlob (cache p') = None
        \/ exists id png,
             cachedBlob (cache p') = Some png
             /\ Settled id (Ok png) ∈ evs
             /\ ((exists el, pending p !! id = Some (el, u))
                 \/ next_id p <= id)).
Proof.
  induction evs as [|ev evs IH]; intros p Hkey Hevs; [cbn; auto|].
  cbn [forallb] in Hevs. apply andb_prop in Hevs as [Hev Hevs].
  destruct (page_step_keeps_key u ev p Hkey Hev)
    as (Hkey1 & Hnext1 & Hpend1 & Hblob1).
  destruct (IH (page_step p ev) Hkey1 Hevs) as (Hkey' & Hnext & Hblob).
  cbn [page_run foldl]. fold (page_run (page_step p ev) evs) in *.
  split; [exact Hkey'|]. split; [lia|].
  destruct Hblob as [Hsame|[Hnone|(id & png & Hpng & Hin & Hid)]].
  - rewrite Hsame.
    destruct Hblob1 as [?|[?|(id & el & png & -> & Hid & Hpng)]];
      [by left|by right; left|].
    right. right. exists id, png.
    split; [exact Hpng|]. split; [apply elem_of_cons; by left|].
    left. by exists el.
  - by right; left.
  - right. right. exists id, png.
    split; [exact Hpng|]. split; [apply elem_of_cons; by right|].
    destruct Hid as [[el Hid]|Hid]; [|right; lia].
    destruct (Hpend1 id el Hid) as [?|?]; [left; by exists el|by right].
Qed.

(** X20. After B's call, whatever is resumed and however often [prefetch]
    is called again for B's URL (a click is a [mousedown] and a [click]),
    the blob in the slot does not come from A's call. *)
Lemma prefetch_stale_call_never_stored (p0 : Page)
    (elA : option Element) (uA : option jsstring)
    (elB : option Element) (uB : option jsstring)
    (evs : list page_event) :
  uA <> uB ->
  has_target elA uA ->
  has_target elB uB ->
  forallb (keeps_key uB) evs = true ->
  let pA := prefetch elA uA p0 in
  let pB := prefetch elB uB pA in
  let p := page_run pB evs in
  cachedUrl (cache p) = uB
  /\ (cachedBlob (cache p) = None
      \/ exists id png,
           cachedBlob (cache p) = Some png
           /\ Settled id (Ok png) ∈ evs
           /\ (pA = p0 \/ id <> next_id p0)).
Proof.
  intros Hneq HA HB Hevs pA pB p.
  assert (cachedUrl (cache pA) = uA) as HkeyA
    by apply prefetch_cachedUrl, HA.
  assert (pB = {| cache := {| cachedBlob := None;
                              cachedUrl := uB;
                              targetImgElement := elB |};
                  pending := <[next_id pA := (elB, uB)]> (pending pA);
                  next_id := S (next_id pA) |}) as HpB
    by (apply prefetch_new_key; [exact HB|congruence]).
  assert (cachedUrl (cache pB) = uB) as HkeyB by (rewrite HpB; done).
  destruct (keeps_key_run_spec uB evs pB HkeyB Hevs)
    as (Hkey & _ & Hblob).
  fold p in Hkey, Hblob. split; [exact Hkey|].
  destruct Hblob as [Hsame|[Hnone|(id & png & Hpng & Hin & Hid)]];
    [left; rewrite Hsame, HpB; done|by left|].
  right. exists id, png. split; [exact Hpng|]. split; [exact Hin|].
  rewrite HpB in Hid. cbn [pending next_id] in Hid.
  destruct (prefetch_cases elA uA p0) as [E|E]; [by left|].
  right. fold pA in E. rewrite E in Hid. cbn [pending next_id] in Hid.
  intros ->. destruct Hid as [[el Hid]|Hid]; [|lia].
  rewrite lookup_insert_ne in Hid by lia.
  rewrite lookup_insert_eq in Hid. congruence.
Qed.

End RasterCache.

(** * The properties on the sample pages *)

Section Samples.

Lemma url_A_not_empty : url_A <> [].
Proof. intros H. discriminate H. Defined.

Lemma url_gm_not_empty : url_gm <> [].
Proof. intros H. discriminate H. Defined.

Lemma url_A_not_B : Some url_A <> Some url_B.
Proof. intros H. discriminate H. Defined.

Lemma fetchImageBlob_element_only_witness :
  fetchImageBlob (sample_world net_offline never_focused) (Some 0) None []
  = (Throw all_methods_failed, [EvGrab (Some 0)]).
Proof.
  exact (fetchImageBlob_element_only (sample_world net_offline never_focused)
           0 None [] eq_refl).
Defined.

Lemma fetchImageBlob_url_only_witness :
  exists evs,
    forallb is_net_fetch evs = true
    /\ snd (fetchViaBackground (sample_world net_403_then_ok never_focused)
              url_A [])
       = EvSendMessage url_A :: evs
    /\ fetchImageBlob (sample_world net_403_then_ok never_focused)
         None (Some url_A) []
       = (Ok jpeg_blob, EvSendMessage url_A :: evs).
Proof.
  exact (fetchImageBlob_url_only (sample_world net_403_then_ok never_focused)
           url_A [] url_A_not_empty).
Defined.

Lemma fetchImageBlob_exhausted_witness :
  fst (fetchImageBlob (sample_world net_offline never_focused)
         (Some 0) (Some url_A) [])
  = Throw all_methods_failed.
Proof.
  exact (fetchImageBlob_exhausted (sample_world net_offline never_focused)
           (Some 0) (Some url_A) []
           (fun _ => eq_refl) (fun _ => eq_refl) (fun _ => eq_refl)).
Defined.

Lemma fetchImageBlob_403_variant_witness :
  fetchImageBlob (sample_world net_403_then_ok never_focused)
    (Some 0) (Some url_gm) []
  = (Ok jpeg_blob,
     [EvGrab (Some 0); EvSendMessage url_gm; EvNetFetch url_gm true;
      EvNetFetch url_A true]).
Proof.
  exact (proj1
           (fetchImageBlob_403_variant
              (sample_world net_403_then_ok never_focused)
              (Some 0) url_gm []
              {| status := 403; body := Ok jpeg_blob |}
              {| status := 200; body := Ok jpeg_blob |}
              jpeg_blob (js "data:image/jpeg;base64,/9j/") jpeg_blob
              url_gm_not_empty (fun _ => eq_refl)
              eq_refl eq_refl eq_refl eq_refl eq_refl eq_refl eq_refl
              eq_refl)).
Defined.

Lemma ensurePng_png_unchanged_witness :
  ensurePng (sample_world net_offline never_focused) png_blob []
  = (Ok png_blob, [])
  /\ snd (ensurePng (sample_world net_offline never_focused) jpeg_blob [])
     = [EvDecode jpeg_blob].
Proof.
  split.
  - exact (proj1 (ensurePng_png_unchanged
                    (sample_world net_offline never_focused) png_blob [])
             eq_refl).
  - apply (ensurePng_png_unchanged
             (sample_world net_offline never_focused) jpeg_blob []).
    intros H. discriminate H.
Defined.

Lemma onCopyImageFromContextMenu_focus_timeout_witness :
  exists k,
    k <= 40
    /\ awaitFocus (sample_world net_offline never_focused) 50
         1700000000000 []
       = (Ok (Some false), repeat EvTimer (S k))
    /\ onCopyImageFromContextMenu (sample_world net_offline never_focused)
         50 warm_cache None []
       = (Ok (Some tt),
          repeat EvTimer (S k)
            ++ [EvToast toast_lost_focus true; EvSendResponse false]).
Proof.
  apply (onCopyImageFromContextMenu_focus_timeout
           (sample_world net_offline never_focused) 50 warm_cache None [] 40).
  - reflexivity.
  - lia.
  - intros k _. reflexivity.
  - vm_compute. reflexivity.
Defined.

Lemma prefetch_cached_noop_witness :
  prefetch (Some 7) (cachedUrl warm_cache) warm_page = warm_page.
Proof.
  apply prefetch_cached_noop; [reflexivity|].
  exists png_blob. reflexivity.
Defined.

Lemma prefetch_discards_stale_fetch_witness :
  let p := page_run
             (prefetch (Some 1) (Some url_B)
                (prefetch (Some 0) (Some url_A) empty_page))
             [Settled 1 (Ok jpeg_blob); Settled 0 (Ok png_blob)] in
  cachedUrl (cache p) = Some url_B
  /\ (cachedBlob (cache p) = None
      \/ exists id el png,
           cachedBlob (cache p) = Some png
           /\ Settled id (Ok png)
                ∈ [Settled 1 (Ok jpeg_blob); Settled 0 (Ok png_blob)]
           /\ pending (prefetch (Some 1) (Some url_B)
                         (prefetch (Some 0) (Some url_A) empty_page)) !! id
              = Some (el, Some url_B)
           /\ (prefetch (Some 0) (Some url_A) empty_page = empty_page
               \/ id <> next_id empty_page)).
Proof.
  apply (prefetch_discards_stale_fetch empty_page
           (Some 0) (Some url_A) (Some 1) (Some url_B)
           [Settled 1 (Ok jpeg_blob); Settled 0 (Ok png_blob)]).
  - exact url_A_not_B.
  - left. by eexists.
  - left. by eexists.
  - reflexivity.
Defined.

Lemma count_timers_ticks (n : nat) : count_timers (repeat EvTimer n) = n.
Proof.
  unfold count_timers. induction n as [|n IH]; [reflexivity|].
  cbn. f_equal. exact IH.
Qed.

(** C7 as stated does not hold.  Here every timer callback within the
    2000 ms sees the document unfocused; the callback at 2050 ms sees it
    focused, the wait resolves [true], and the handler writes the
    clipboard. *)
Lemma focus_after_bound_counterexample :
  let W := sample_world net_offline focused_late in
  has_focus W [] = false
  /\ (forall k,
        (date_now W (repeat EvTimer (S k)) - date_now W [] <= 2000)%Z ->
        has_focus W (repeat EvTimer (S k)) = false)
  /\ (date_now W (repeat EvTimer 41) - date_now W [] = 2050)%Z
  /\ awaitFocus W 50 (date_now W []) [] = (Ok (Some true), repeat EvTimer 41)
  /\ onCopyImageFromContextMenu W 50 warm_cache None []
     = (Ok (Some tt),
        repeat EvTimer 41
          ++ [EvClipboardWrite png_blob; EvToast toast_copied false;
              EvSendResponse true]).
Proof.
  cbv zeta. split; [reflexivity|]. split; [|split; [|split]].
  - intros k. cbn [date_now has_focus sample_world]. unfold focused_late.
    rewrite count_timers_ticks. cbn [count_timers List.filter length].
    intros H. apply Nat.leb_gt. lia.
  - vm_compute. reflexivity.
  - vm_compute. reflexivity.
  - vm_compute. reflexivity.
Qed.

(** The scenarios of the design document, evaluated. *)

Example upgradeUrl_w :
  upgradeUrl (js "https://lh3.googleusercontent.com/photo=w400-h300")
  = js "https://lh3.googleusercontent.com/photo=w2048-h2048-no".
Proof. vm_compute. reflexivity. Qed.

Example upgradeUrl_s :
  upgradeUrl (js "https://lh3.googleusercontent.com/photo=s96-c")
  = js "https://lh3.googleusercontent.com/photo=s2048-no".
Proof. vm_compute. reflexivity. Qed.

Example upgradeUrl_bare :
  upgradeUrl (js "https://lh3.googleusercontent.com/photo")
  = js "https://lh3.googleusercontent.com/photo=w2048-h2048-no".
Proof. vm_compute. reflexivity. Qed.

(** ["=w"] without a digit: [includes] finds it, the regex does not. *)
Example upgradeUrl_w_no_digit :
  upgradeUrl (js "https://example.org/?q=why") = js "https://example.org/?q=why".
Proof. vm_compute. reflexivity. Qed.

(** [.] does not cross a line terminator, so [$] is not reached. *)
Example upgradeUrl_line_terminator :
  upgradeUrl (js "a=w12" ++ [10%N] ++ js "b") = js "a=w12" ++ [10%N] ++ js "b".
Proof. vm_compute. reflexivity. Qed.

(** The leftmost match is replaced, to the end of the string. *)
Example upgradeUrl_leftmost :
  upgradeUrl (js "a=w1-b=w2") = js "a=w2048-h2048-no".
Proof. vm_compute. reflexivity. Qed.

Example replace_no_gm :
  replace url_gm re_no_gm (js "-no") = url_A.
Proof. vm_compute. reflexivity. Qed.

(** A's fetch settles after B's call and before B's fetch. *)
Example stale_fetch_first :
  cache (page_run empty_page
           [Interact (Some 0) (Some url_A); Interact (Some 1) (Some url_B);
            Settled 0 (Ok png_blob); Settled 1 (Ok jpeg_blob)])
  = {| cachedBlob := Some jpeg_blob;
       cachedUrl := Some url_B;
       targetImgElement := Some 1 |}.
Proof. vm_compute. reflexivity. Qed.

(** A's fetch settles last. *)
Example stale_fetch_last :
  cache (page_run empty_page
           [Interact (Some 0) (Some url_A); Interact (Some 1) (Some url_B);
            Settled 1 (Ok jpeg_blob); Settled 0 (Ok png_blob)])
  = {| cachedBlob := Some jpeg_blob;
       cachedUrl := Some url_B;
       targetImgElement := Some 1 |}.
Proof. vm_compute. reflexivity. Qed.

(** B's fetch fails: the slot stays empty. *)
Example stale_fetch_only :
  cache (page_run empty_page
           [Interact (Some 0) (Some url_A); Interact (Some 1) (Some url_B);
            Settled 1 (Throw all_methods_failed); Settled 0 (Ok png_blob)])
  = {| cachedBlob := None;
       cachedUrl := Some url_B;
       targetImgElement := Some 1 |}.
Proof. vm_compute. reflexivity. Qed.

(** A [mousedown] and a [click] on B while A's fetch is in flight. *)
Example stale_fetch_repeated_target :
  cache (page_run empty_page
           [Interact (Some 0) (Some url_A); Interact (Some 1) (Some url_B);
            Interact (Some 1) (Some url_B); Settled 0 (Ok png_blob);
            Settled 1 (Throw all_methods_failed); Settled 2 (Ok jpeg_blob)])
  = {| cachedBlob := Some jpeg_blob;
       cachedUrl := Some url_B;
       targetImgElement := Some 1 |}.
Proof. vm_compute. reflexivity. Qed.

(** A status other than 403 is reported with its number. *)
Example onFetchImage_404 :
  onFetchImage
    (sample_world (fun _ _ _ => Ok {| status := 404; body := Ok jpeg_blob |})
       never_focused)
    url_A []
  = (Ok (Some (ReplyError (js "HTTP 404"))), [EvNetFetch url_A true]).
Proof. vm_compute. reflexivity. Qed.

(** 403 on both variants: method B fails and method C is tried. *)
Example fetchImageBlob_403_twice :
  fetchImageBlob
    (sample_world (fun _ _ _ => Ok {| status := 403; body := Ok jpeg_blob |})
       never_focused)
    None (Some url_gm) []
  = (Throw all_methods_failed,
     [EvSendMessage url_gm; EvNetFetch url_gm true; EvNetFetch url_A true;
      EvImageLoad url_gm]).
Proof. vm_compute. reflexivity. Qed.

(** Focus comes back at the third callback, within the bound: the handler
    delivers the cached blob. *)
Example focus_regained :
  onCopyImageFromContextMenu
    (sample_world net_offline (fun t => 3 <=? count_timers t))
    50 warm_cache None []
  = (Ok (Some tt),
     [EvTimer; EvTimer; EvTimer; EvClipboardWrite png_blob;
      EvToast toast_copied false; EvSendResponse true]).
Proof. vm_compute. reflexivity. Qed.

End Samples.

(** * Further properties of the code *)

(** ** URL Normalizer: what is rewritten and what is kept *)

Section UrlRewriting.

(** A size suffix at the end of [p ++ q] is the leftmost match when [p] has
    no ['='] followed by [c]. *)
Lemma rx_search_at_suffix (c : code_unit) (re : regex) (p q : jsstring) :
  (forall s,
     rx_exec re s = if size_suffix c s then Some (length s) else None) ->
  c <> 61%N ->
  size_suffix c q = true ->
  includes p [61%N; c] = false ->
  rx_search re (p ++ q) = Some (length p, length q).
Proof.
  intros re_spec Hc Hq. induction p as [|a p IH]; intros Hp.
  - cbn [app length]. destruct q; cbn [rx_search]; rewrite re_spec, Hq;
      reflexivity.
  - cbn [includes] in Hp. apply orb_false_elim in Hp as [Hhead Htail].
    cbn [app length rx_search]. rewrite re_spec.
    destruct (size_suffix c (a :: p ++ q)) eqn:E.
    + exfalso.
      apply size_suffix_inv in E as (d & rest & E & _).
      apply size_suffix_inv in Hq as (d' & rest' & -> & _).
      destruct p as [|x p]; simplify_eq/=.
      rewrite !N.eqb_refl in Hhead. discriminate.
    + rewrite (IH Htail). reflexivity.
Qed.

Lemma replace_at_suffix (c : code_unit) (re : regex) (p q repl : jsstring) :
  (forall s,
     rx_exec re s = if size_suffix c s then Some (length s) else None) ->
  c <> 61%N ->
  size_suffix c q = true ->
  includes p [61%N; c] = false ->
  replace (p ++ q) re repl = p ++ repl.
Proof.
  intros re_spec Hc Hq Hp. unfold replace.
  rewrite (rx_search_at_suffix c re p q re_spec Hc Hq Hp).
  rewrite take_app_length, drop_ge, app_nil_r;
    [reflexivity|rewrite length_app; lia].
Qed.

Lemma upgradeUrl_cut_w (p rest : jsstring) (d : code_unit) :
  includes p (js "=w") = false ->
  is_digit d = true ->
  forallb not_line_terminator rest = true ->
  upgradeUrl (p ++ js "=w" ++ d :: rest) = p ++ js "=w2048-h2048-no".
Proof.
  intros Hp Hd Hrest. unfold upgradeUrl.
  rewrite (includes_app_r p (js "=w" ++ d :: rest) (js "=w"))
    by (cbn [includes]; apply orb_true_iff; left; reflexivity).
  apply (replace_at_suffix 119%N);
    [exact re_size_w_spec|intros H; discriminate H| |exact Hp].
  exact (size_suffix_intro 119%N d rest Hd Hrest).
Qed.

(** X1. A URL whose first ["=w"] is followed by a digit, with no line
    terminator after it, is cut at that ["=w"] and gets
    ["=w2048-h2048-no"]: the old width and height and whatever followed
    them are gone, what stood before is kept. *)
Theorem upgradeUrl_rewrites_w (p rest : jsstring) (d : code_unit) :
  includes p (js "=w") = false ->
  is_digit d = true ->
  forallb not_line_terminator rest = true ->
  upgradeUrl (p ++ js "=w" ++ d :: rest) = p ++ js "=w2048-h2048-no".
Proof. exact (upgradeUrl_cut_w p rest d). Qed.

(** X2. The same for ["=s"], which is looked at only when the URL has no
    ["=w"] anywhere: the URL is cut at its first ["=s"] followed by a digit
    and gets ["=s2048-no"]. *)
Theorem upgradeUrl_rewrites_s (p rest : jsstring) (d : code_unit) :
  includes (p ++ js "=s" ++ d :: rest) (js "=w") = false ->
  includes p (js "=s") = false ->
  is_digit d = true ->
  forallb not_line_terminator rest = true ->
  upgradeUrl (p ++ js "=s" ++ d :: rest) = p ++ js "=s2048-no".
Proof.
  intros Hw Hp Hd Hrest. unfold upgradeUrl. rewrite Hw.
  rewrite (includes_app_r p (js "=s" ++ d :: rest) (js "=s"))
    by (cbn [includes]; apply orb_true_iff; left; reflexivity).
  apply (replace_at_suffix 115%N);
    [exact re_size_s_spec|intros H; discriminate H| |exact Hp].
  exact (size_suffix_intro 115%N d rest Hd Hrest).
Qed.

Lemma includes_nil_false (p : jsstring) : p <> [] -> includes [] p = false.
Proof. destruct p; [done|reflexivity]. Qed.

(** X3. Every normalized URL has an ['='], so it is never the empty
    string. *)
Theorem upgradeUrl_has_option (u : jsstring) :
  includes (upgradeUrl u) (js "=") = true /\ upgradeUrl u <> [].
Proof.
  assert (includes (upgradeUrl u) (js "=") = true) as H.
  { unfold upgradeUrl.
    destruct (includes u (js "=w")) eqn:Hw.
    - destruct (replace_shape 119%N (re_size "w") suffix_w re_size_w_spec u)
        as [E|(i & d & rest & E & _)]; fold suffix_w; rewrite E.
      + exact (includes_head u 61%N (js "w") Hw).
      + apply includes_app_r. reflexivity.
    - destruct (includes u (js "=s")) eqn:Hs.
      + destruct (replace_shape 115%N (re_size "s") suffix_s re_size_s_spec u)
          as [E|(i & d & rest & E & _)]; fold suffix_s; rewrite E.
        * exact (includes_head u 61%N (js "s") Hs).
        * apply includes_app_r. reflexivity.
      + destruct (includes u (js "=")) eqn:He; [exact He|].
        apply includes_app_r. reflexivity. }
  split; [exact H|]. intros E. rewrite E in H. discriminate H.
Qed.

Lemma drop_head_in_prefix (p q r : jsstring) (i : nat) :
  includes p [61%N] = false ->
  drop i (p ++ q) = 61%N :: r ->
  length p <= i.
Proof.
  revert i. induction p as [|a p IH]; intros i Hp Hdrop; [cbn; lia|].
  cbn [includes starts_with] in Hp. apply orb_false_elim in Hp as [Ha Hp].
  destruct i as [|i].
  - cbn in Hdrop. injection Hdrop as -> _. discriminate Ha.
  - cbn [app drop length] in *. specialize (IH i Hp Hdrop). lia.
Qed.

(** X4. Nothing before the first ['='] of a URL is ever changed: scheme,
    host and path come out as they went in. *)
Theorem upgradeUrl_keeps_prefix (p q : jsstring) :
  includes p (js "=") = false ->
  exists q', upgradeUrl (p ++ q) = p ++ q'.
Proof.
  intros Hp.
  assert (forall c re repl,
            (forall s, rx_exec re s
                       = if size_suffix c s then Some (length s) else None) ->
            exists q', replace (p ++ q) re repl = p ++ q') as Hreplace.
  { intros c re repl re_spec.
    destruct (replace_shape c re repl re_spec (p ++ q))
      as [E|(i & d & rest & E & Hdrop)]; rewrite E; [by exists q|].
    pose proof (drop_head_in_prefix p q _ i Hp Hdrop) as Hi.
    exists (take (i - length p) q ++ repl).
    rewrite take_app_ge by exact Hi. rewrite <- app_assoc. reflexivity. }
  unfold upgradeUrl.
  destruct (includes (p ++ q) (js "=w")); [apply (Hreplace 119%N), re_size_w_spec|].
  destruct (includes (p ++ q) (js "=s")); [apply (Hreplace 115%N), re_size_s_spec|].
  destruct (includes (p ++ q) (js "=")); [by exists q|].
  exists (q ++ js "=w2048-h2048-no"). rewrite <- app_assoc. reflexivity.
Qed.

End UrlRewriting.

(** ** The service worker *)

Section ServiceWorker.

Variable W : World.

Ltac run := cbv [bind try_catch map_result ret throw ask call emit settle].

Ltac oracle_cases :=
  repeat match goal with
         | _ => progress (rewrite <- ?app_assoc;
                          cbn [app negb is_throw fst snd])
         | |- context [net_fetch W ?t ?u ?c] =>
             destruct (net_fetch W t u c) as [?r|?e] eqn:?
         | |- context [if resp_ok ?r then _ else _] =>
             destruct (resp_ok r) eqn:?
         | |- context [negb (resp_ok ?r)] => destruct (resp_ok r) eqn:?
         | |- context [(status ?r =? 403)%N] =>
             destruct (N.eqb_spec (status r) 403)
         | |- context [match body ?r with _ => _ end] =>
             destruct (body r) as [?b|?e] eqn:?
         | |- context [read_as_data_url W ?t ?b] =>
             destruct (read_as_data_url W t b) as [?d|] eqn:?
         end.

(** A literal regex matches where the string starts with the literal. *)
Lemma rx_exec_literal (p s : jsstring) :
  rx_exec ((fun c => NAtom (AChar c)) <$> p) s
  = if starts_with p s then Some (length p) else None.
Proof.
  revert s. induction p as [|a p IH]; intros s; [reflexivity|].
  cbn [fmap list_fmap rx_exec atom_matches starts_with length].
  destruct s as [|b s]; [reflexivity|].
  rewrite (N.eqb_sym b a). destruct (a =? b)%N; [|reflexivity].
  cbn [andb]. change (list_fmap _ _ ?f p) with (f <$> p). rewrite IH.
  destruct (starts_with p s); reflexivity.
Qed.

Lemma rx_search_literal_none (p s : jsstring) :
  includes s p = false ->
  rx_search ((fun c => NAtom (AChar c)) <$> p) s = None.
Proof.
  induction s as [|b s IH]; cbn [includes rx_search]; rewrite rx_exec_literal;
    intros H; apply orb_false_elim in H as [-> H]; [reflexivity|].
  rewrite (IH H). reflexivity.
Qed.

(** X5. A URL without ["-no-gm"] has no other variant: after a 403 the
    listener asks for the very same URL once more. *)
Theorem variant_url_same (url : jsstring) :
  includes url (js "-no-gm") = false -> variant_url url = url.
Proof.
  intros H. unfold variant_url, replace, re_no_gm, lit.
  rewrite (rx_search_literal_none _ _ H). reflexivity.
Qed.

(** X6. The listener answers every request that has a URL: whatever the
    network does, no exception leaves it. *)
Theorem onFetchImage_always_replies (url : jsstring) (t : trace) :
  url <> [] ->
  exists reply, fst (onFetchImage W url t) = Ok (Some reply).
Proof.
  intros Hurl. destruct url as [|c u]; [done|].
  cbv [onFetchImage fetch]. run. oracle_cases; eexists; reflexivity.
Qed.

(** X7. The requests of the listener, in order: the URL with credentials;
    the URL without credentials, exactly when the first request threw; the
    variant URL with credentials, exactly when the response in hand has
    status 403.  There are no others. *)
Theorem onFetchImage_requests (url : jsstring) (t : trace) :
  url <> [] ->
  snd (onFetchImage W url t)
  = t ++ first_requests W url t
      ++ match first_response W url t with
         | Some r =>
             if (status r =? 403)%N
             then [EvNetFetch (variant_url url) true] else []
         | None => []
         end.
Proof.
  intros Hurl. destruct url as [|c u]; [done|].
  cbv [onFetchImage fetch first_requests first_response variant_url]. run.
  oracle_cases; cbn [fst snd];
    repeat match goal with
           | H : resp_ok ?r = true, E : status ?r = 403%N |- _ =>
               unfold resp_ok in H; rewrite E in H; discriminate H
           | E : status ?r = 403%N |- _ => rewrite E; cbn [N.eqb Pos.eqb]
           | n : status ?r <> 403%N |- _ =>
               apply N.eqb_neq in n; rewrite n
           end;
    rewrite <- ?app_assoc, ?app_nil_r; try reflexivity.
Qed.

(** X8. A response that is neither ok nor 403 ends the listener at once:
    it answers [{success: false}] with ["HTTP "] and the status in decimal,
    and makes no further request. *)
Theorem onFetchImage_reports_status (url : jsstring) (t : trace)
    (r : Response) :
  url <> [] ->
  first_response W url t = Some r ->
  resp_ok r = false ->
  status r <> 403%N ->
  onFetchImage W url t
  = (Ok (Some (ReplyError (js "HTTP " ++ decimal (status r)))),
     t ++ first_requests W url t).
Proof.
  intros Hurl Hfirst Hok H403. destruct url as [|c u]; [done|].
  revert Hfirst.
  cbv [onFetchImage fetch first_requests first_response]. run.
  apply N.eqb_neq in H403.
  destruct (net_fetch W t (c :: u) true) as [r1|e1]; cbn [is_throw].
  - intros [= ->]. rewrite Hok. cbn [negb]. rewrite H403. reflexivity.
  - destruct (net_fetch W _ (c :: u) false) as [r2|e2]; [|discriminate].
    intros [= ->]. rewrite Hok. cbn [negb]. rewrite H403.
    rewrite <- app_assoc. reflexivity.
Qed.

(** X9. The listener answers [{success: true}] only with the data URL of
    the body of an ok response: the response in hand, or, when that one
    has status 403, the response for the variant URL. *)
Theorem onFetchImage_success_is_ok (url : jsstring) (t t' : trace)
    (dataUrl : jsstring) :
  onFetchImage W url t = (Ok (Some (ReplyData dataUrl)), t') ->
  exists (r : Response) (blob : Blob),
    resp_ok r = true
    /\ body r = Ok blob
    /\ read_as_data_url W t' blob = Some dataUrl
    /\ (first_response W url t = Some r
        \/ exists r1,
             first_response W url t = Some r1
             /\ status r1 = 403%N
             /\ net_fetch W (t ++ first_requests W url t)
                  (variant_url url) true = Ok r).
Proof.
  destruct url as [|c u]; [discriminate|].
  cbv [onFetchImage fetch first_requests first_response variant_url]. run.
  oracle_cases; intros [= <- <-];
    rewrite <- ?app_assoc in *; cbn [app] in *.
  all: try match goal with
           | H : resp_ok ?r = true, E : status ?r = 403%N |- _ =>
               unfold resp_ok in H; rewrite E in H; discriminate H
           end.
  all: simplify_eq.
  all: eexists _, _;
    (split; [eassumption|]); (split; [eassumption|]);
    (split; [eassumption|]);
    first [left; reflexivity
          |right; eexists; split; [reflexivity|]; split;
           [assumption|reflexivity]].
Qed.

(** At most three requests. *)
Lemma onFetchImage_requests_bound (url : jsstring) (t : trace) :
  exists evs,
    snd (onFetchImage W url t) = t ++ evs
    /\ forallb is_net_fetch evs = true
    /\ length evs <= 3.
Proof.
  destruct url as [|c u];
    [exists []; split; [symmetry; apply app_nil_r|split; [done|cbn; lia]]|].
  cbv [onFetchImage fetch]. run.
  oracle_cases; eexists; (split; [reflexivity|split; [reflexivity|cbn; lia]]).
Qed.

End ServiceWorker.

(** ** The pipeline: short circuit and bounded work *)

Section PipelineShape.

Variable W : World.

(** X11. When method A succeeds its blob is the result, whether or not
    there is a URL: nothing is sent to the service worker and no image is
    loaded. *)
Theorem fetchImageBlob_element_first (imgEl : option Element)
    (url : option jsstring) (t : trace) (blob : Blob) :
  is_Some imgEl ->
  fst (grabFromElement W imgEl t) = Ok blob ->
  fetchImageBlob W imgEl url t = (Ok blob, t ++ [EvGrab imgEl]).
Proof.
  intros Hel Hgrab. rewrite fetchImageBlob_eq.
  rewrite (bool_decide_eq_true_2 _ Hel), attempt_eq.
  pose proof (grabFromElement_trace W imgEl t) as Ht.
  destruct (grabFromElement W imgEl t) as [r tA]. cbn [fst snd] in *.
  subst. reflexivity.
Qed.

(** X12. A failed method A leaves nothing behind but its recorded call:
    the pipeline goes on exactly as it would without an element. *)
Theorem fetchImageBlob_after_failed_element (imgEl : option Element)
    (url : option jsstring) (t : trace) :
  is_Some imgEl ->
  is_throw (fst (grabFromElement W imgEl t)) = true ->
  fetchImageBlob W imgEl url t
  = fetchImageBlob W None url (t ++ [EvGrab imgEl]).
Proof.
  intros Hel Hgrab.
  rewrite !fetchImageBlob_eq, (stage_A_failed W imgEl t (fun _ => Hgrab)).
  unfold after_A. rewrite (bool_decide_eq_true_2 _ Hel).
  rewrite bool_decide_eq_false_2 by (by intros [? ?]). reflexivity.
Qed.

Lemma fetchViaBackground_bound (url : jsstring) (t : trace) :
  exists evs,
    snd (fetchViaBackground W url t) = t ++ EvSendMessage url :: evs
    /\ forallb is_net_fetch evs = true
    /\ length evs <= 3.
Proof.
  rewrite fetchViaBackground_eq.
  destruct (runtime_port W t) as [m|];
    [exists []; split; [done|split; [done|cbn; lia]]|].
  destruct (onFetchImage_requests_bound W url (t ++ [EvSendMessage url]))
    as (evs & Ht & Hn & Hlen).
  exists evs. split; [|split; assumption].
  destruct (onFetchImage W url _) as [[[[d|error]|]|e] t']; cbn [snd] in *;
    subst t'; rewrite <- ?app_assoc; done.
Qed.

(** X13. One call of the pipeline does a bounded amount of work, in a fixed
    order: at most one [grabFromElement], then at most one message with at
    most three requests of the service worker behind it, then at most one
    cross-origin image load.  Nothing is retried. *)
Theorem fetchImageBlob_trace_shape (imgEl : option Element)
    (url : option jsstring) (t : trace) :
  let u := default [] url in
  exists evs,
    forallb is_net_fetch evs = true
    /\ length evs <= 3
    /\ (snd (fetchImageBlob W imgEl url t) = after_A imgEl t
        \/ snd (fetchImageBlob W imgEl url t)
           = after_A imgEl t ++ EvSendMessage u :: evs
        \/ snd (fetchImageBlob W imgEl url t)
           = after_A imgEl t ++ EvSendMessage u :: evs ++ [EvImageLoad u]).
Proof.
  intros u. rewrite fetchImageBlob_eq.
  assert (exists r,
            (if bool_decide (is_Some imgEl)
             then attempt (grabFromElement W imgEl) t else (Ok None, t))
            = (Ok r, after_A imgEl t)) as [r ->].
  { unfold after_A. case_bool_decide; [|by eexists].
    rewrite attempt_eq.
    pose proof (grabFromElement_trace W imgEl t) as Ht.
    destruct (grabFromElement W imgEl t) as [[b|e] tA]; cbn [snd] in Ht;
      subst tA; by eexists. }
  destruct r as [blob|];
    [exists []; split; [done|split; [cbn; lia|by left]]|].
  unfold stage. fold u. destruct (truthy url);
    [|exists []; split; [done|split; [cbn; lia|by left]]].
  destruct (fetchViaBackground_bound u (after_A imgEl t))
    as (evs & Ht & Hn & Hlen).
  exists evs. split; [exact Hn|]. split; [exact Hlen|].
  rewrite attempt_eq.
  destruct (fetchViaBackground W u (after_A imgEl t)) as [[blob|e] tB];
    cbn [snd] in Ht; subst tB; [right; by left|].
  right. right. rewrite attempt_eq.
  pose proof (fetchViaDomCanvas_trace W u
                (after_A imgEl t ++ EvSendMessage u :: evs)) as HC.
  destruct (fetchViaDomCanvas W u _) as [[blob|e'] tC]; cbn [snd] in HC |- *;
    subst tC; rewrite <- app_assoc; reflexivity.
Qed.

End PipelineShape.

(** ** Format Normalizer: the result is a PNG *)

Section NormalizerResult.

Variable W : World.

(** X14. When the canvas honours the requested type (every blob that
    [convertToBlob] gives is an ["image/png"]), so does [ensurePng]: each
    blob it returns is an ["image/png"], and normalizing it again gives it
    back without another decode. *)
Theorem ensurePng_result_is_png (blob png : Blob) (t : trace) :
  (forall t0 bmp b,
     convert_to_blob W t0 bmp = Ok b -> blob_type b = js "image/png") ->
  fst (ensurePng W blob t) = Ok png ->
  blob_type png = js "image/png"
  /\ forall t', ensurePng W png t' = (Ok png, t').
Proof.
  intros Hconvert Hrun.
  assert (blob_type png = js "image/png") as Hpng.
  { revert Hrun. unfold ensurePng, str_eqb. case_bool_decide as Htype.
    - intros [= <-]. exact Htype.
    - cbv [bind call settle ret throw ask].
      destruct (create_image_bitmap W t blob) as [bmp|e]; [|discriminate].
      destruct (convert_to_blob W _ bmp) as [b|e] eqn:Hb; [|discriminate].
      intros [= <-]. exact (Hconvert _ _ _ Hb). }
  split; [exact Hpng|]. intros t'. unfold ensurePng, str_eqb.
  rewrite (bool_decide_eq_true_2 _ Hpng). reflexivity.
Qed.

End NormalizerResult.

(** ** Clipboard delivery and the context-menu handler *)

Section Delivery.

Variable W : World.

Create HintDb delivery discriminated.
#[local] Hint Resolve emits_ret emits_throw emits_ask emits_settle
  emits_bind emits_try_catch emits_map_result : delivery.

Ltac emits_step :=
  lazymatch goal with
  | |- emits _ (match ?x with _ => _ end) => destruct x
  | |- emits _ (let '(_, _) := ?x in _) => destruct x
  | |- emits _ (call _ _) => apply emits_call; reflexivity
  | |- emits _ (emit _) => apply emits_call; reflexivity
  | |- forall _, _ => intro
  | |- emits _ _ => solve [auto 2 with delivery] || eapply emits_bind
                    || eapply emits_try_catch
  end.

(** Nothing below the handler answers the message. *)
Lemma fetchImageBlob_no_response imgEl url :
  emits not_send_response (fetchImageBlob W imgEl url).
Proof.
  unfold fetchImageBlob, attempt, grabFromElement, canvas_export,
    fetchViaBackground, sendMessage, onFetchImage, fetch, fetchViaDomCanvas.
  repeat emits_step.
Qed.

Lemma ensurePng_no_response blob : emits not_send_response (ensurePng W blob).
Proof. unfold ensurePng. repeat emits_step. Qed.

Lemma getUrlFromElement_no_response imgEl :
  emits not_send_response (getUrlFromElement W imgEl).
Proof. unfold getUrlFromElement. repeat emits_step. Qed.

Lemma writeToClipboard_eq (blob : Blob) (t : trace) :
  let t1 := t ++ focus_attempt W t in
  writeToClipboard W blob t
  = (Ok (write_result (clipboard_write W t1 blob)),
     t1 ++ [EvClipboardWrite blob]).
Proof.
  unfold writeToClipboard, focus_attempt, write_result.
  cbv [bind try_catch map_result ret throw ask call emit settle].
  destruct (has_focus W t); cbn [negb].
  - rewrite app_nil_r. destruct (clipboard_write W t blob); reflexivity.
  - rewrite <- !app_assoc. cbn [app].
    destruct (clipboard_write W _ blob); reflexivity.
Qed.

Lemma try_bind_eq {A B} (a : M A) (k : A -> M B) (h : JsError -> M B)
    (t : trace) :
  try_catch (bind a k) h t
  = match a t with
    | (Ok x, t1) => try_catch (k x) h t1
    | (Throw e, t1) => h e t1
    end.
Proof. unfold try_catch, bind. destruct (a t) as [[x|e] t1]; reflexivity. Qed.

(** The [try] block and its [catch]: one answer, at the end, and [ok] only
    after a write that succeeded. *)
Lemma deliver_spec (c : Cache) (srcUrl : option jsstring) (t : trace) :
  exists evs ok,
    deliver W c srcUrl t = (Ok tt, t ++ evs ++ [EvSendResponse ok])
    /\ forallb not_send_response evs = true
    /\ (ok = true ->
        exists blob t1,
          EvClipboardWrite blob ∈ evs /\ clipboard_write W t1 blob = None).
Proof.
  unfold deliver. rewrite try_bind_eq.
  match goal with
  | |- context [match ?a t with _ => _ end] =>
      assert (emits not_send_response a) as Ha;
        [|destruct (Ha t) as (evs1 & Ht1 & Hn1);
          destruct (a t) as [[blob|e] t1]; cbn [snd] in Ht1; subst t1]
  end.
  { destruct (cachedBlob c); [apply emits_ret|].
    repeat first [apply fetchImageBlob_no_response
                 |apply ensurePng_no_response
                 |apply getUrlFromElement_no_response
                 |emits_step]. }
  - rewrite try_bind_eq, writeToClipboard_eq. cbv zeta.
    set (t1 := (t ++ evs1) ++ focus_attempt W (t ++ evs1)).
    set (result := write_result (clipboard_write W t1 blob)).
    exists (evs1 ++ focus_attempt W (t ++ evs1)
              ++ [EvClipboardWrite blob; result_toast result]), (ok result).
    split; [|split].
    + unfold showToast, result_toast.
      cbv [bind try_catch ret emit call]. subst t1.
      rewrite <- !app_assoc. reflexivity.
    + rewrite !forallb_app, Hn1. unfold focus_attempt.
      destruct (has_focus W (t ++ evs1)); reflexivity.
    + intros Hok. exists blob, t1. split.
      * rewrite !elem_of_app, !elem_of_cons. auto.
      * subst result. destruct (clipboard_write W t1 blob); [discriminate|].
        reflexivity.
  - exists (evs1 ++ [EvToast (toast_failed (err_message e)) true]), false.
    split; [|split; [|discriminate]].
    + unfold showToast. cbv [bind ret emit call].
      rewrite <- !app_assoc. reflexivity.
    + rewrite forallb_app, Hn1. reflexivity.
Qed.

Lemma awaitFocus_trace (fuel : nat) :
  forall (start : Z) (t : trace),
    exists k r,
      k <= fuel /\ awaitFocus W fuel start t = (Ok r, t ++ repeat EvTimer k).
Proof.
  induction fuel as [|fuel IH]; intros start t.
  - exists 0, None. split; [lia|]. cbn. rewrite app_nil_r. reflexivity.
  - cbn [awaitFocus]. cbv [bind emit call ask ret].
    destruct (has_focus W (t ++ [EvTimer]));
      [exists 1, (Some true); split; [lia|reflexivity]|].
    destruct (date_now W (t ++ [EvTimer]) - start >? 2000)%Z;
      [exists 1, (Some false); split; [lia|reflexivity]|].
    destruct (IH start (t ++ [EvTimer])) as (k & r & Hk & ->).
    exists (S k), r. split; [lia|]. rewrite ticks_snoc. reflexivity.
Qed.

Lemma onCopyImageFromContextMenu_spec (fuel : nat) (c : Cache)
    (srcUrl : option jsstring) (t : trace) :
  exists evs,
    forallb not_send_response evs = true
    /\ (onCopyImageFromContextMenu W fuel c srcUrl t = (Ok None, t ++ evs)
        \/ exists ok,
             onCopyImageFromContextMenu W fuel c srcUrl t
             = (Ok (Some tt), t ++ evs ++ [EvSendResponse ok])
             /\ (ok = true ->
                 exists blob t1,
                   EvClipboardWrite blob ∈ evs
                   /\ clipboard_write W t1 blob = None)).
Proof.
  unfold onCopyImageFromContextMenu, showToast, map_result.
  cbv [bind emit call ask ret].
  destruct (deliver_spec c srcUrl t) as (evs0 & ok0 & Hd0 & Hn0 & Hok0).
  destruct (has_focus W t); cbn [negb];
    [exists evs0; split; [exact Hn0|]; right; exists ok0; rewrite Hd0;
     split; [reflexivity|exact Hok0]|].
  destruct (awaitFocus_trace fuel (date_now W t) t) as (k & r & Hk & ->).
  assert (forallb not_send_response (repeat EvTimer k) = true) as Hticks
    by (clear; induction k; [reflexivity|assumption]).
  destruct r as [[|]|].
  - destruct (deliver_spec c srcUrl (t ++ repeat EvTimer k))
      as (evs & ok & -> & Hn & Hok).
    exists (repeat EvTimer k ++ evs).
    split; [rewrite forallb_app, Hticks, Hn; reflexivity|].
    right. exists ok. split; [rewrite <- !app_assoc; reflexivity|].
    intros H. destruct (Hok H) as (blob & t1 & Hin & Hwrite).
    exists blob, t1. split; [|exact Hwrite].
    apply elem_of_app. by right.
  - exists (repeat EvTimer k ++ [EvToast toast_lost_focus true]).
    split; [rewrite forallb_app, Hticks; reflexivity|].
    right. exists false.
    split; [rewrite <- !app_assoc; reflexivity|discriminate].
  - exists (repeat EvTimer k). split; [exact Hticks|]. by left.
Qed.

(** X15. The context-menu handler never throws and never answers twice:
    while the focus wait is pending it has not answered, and once it is
    through it has answered exactly once, as the last thing it does. *)
Theorem onCopyImageFromContextMenu_answers_once (fuel : nat) (c : Cache)
    (srcUrl : option jsstring) (t : trace) :
  exists evs,
    forallb not_send_response evs = true
    /\ (onCopyImageFromContextMenu W fuel c srcUrl t = (Ok None, t ++ evs)
        \/ exists ok,
             onCopyImageFromContextMenu W fuel c srcUrl t
             = (Ok (Some tt), t ++ evs ++ [EvSendResponse ok])).
Proof.
  destruct (onCopyImageFromContextMenu_spec fuel c srcUrl t)
    as (evs & Hn & [H|(ok & H & _)]);
    exists evs; (split; [exact Hn|]); [by left|right; by exists ok].
Qed.


(** X17. With a cached blob and a focused document the handler goes
    straight to the clipboard: the cached blob is written, and nothing is
    grabbed, sent or loaded. *)
Theorem onCopyImageFromContextMenu_cache_hit (fuel : nat) (c : Cache)
    (srcUrl : option jsstring) (t : trace) (blob : Blob) :
  has_focus W t = true ->
  cachedBlob c = Some blob ->
  let result := write_result (clipboard_write W t blob) in
  onCopyImageFromContextMenu W fuel c srcUrl t
  = (Ok (Some tt),
     t ++ [EvClipboardWrite blob; result_toast result;
           EvSendResponse (ok result)]).
Proof.
  intros Hfocus Hblob result.
  unfold onCopyImageFromContextMenu.
  unfold bind at 1, ask. rewrite Hfocus. cbn [negb].
  unfold map_result, bind at 1, deliver. rewrite Hblob.
  rewrite try_bind_eq. unfold ret at 1.
  rewrite try_bind_eq, writeToClipboard_eq.
  unfold focus_attempt. rewrite Hfocus, app_nil_r. fold result.
  unfold showToast, result_toast. cbv [try_catch bind emit call ret].
  rewrite <- !app_assoc. reflexivity.
Qed.

Lemma awaitFocus_regained (k : nat) :
  forall (fuel : nat) (start : Z) (t : trace),
    k < fuel ->
    (forall j, j < k ->
       has_focus W (t ++ repeat EvTimer (S j)) = false
       /\ (date_now W (t ++ repeat EvTimer (S j)) - start <= 2000)%Z) ->
    has_focus W (t ++ repeat EvTimer (S k)) = true ->
    awaitFocus W fuel start t = (Ok (Some true), t ++ repeat EvTimer (S k)).
Proof.
  induction k as [|k IH]; intros fuel start t Hfuel Hbefore Hk;
    (destruct fuel as [|fuel]; [lia|]);
    cbn [awaitFocus]; cbv [bind emit call ask ret].
  - cbn [repeat] in Hk. rewrite Hk. reflexivity.
  - destruct (Hbefore 0 ltac:(lia)) as [Hf Hd]. cbn [repeat] in Hf, Hd.
    rewrite Hf.
    destruct (date_now W (t ++ [EvTimer]) - start >? 2000)%Z eqn:Hgt; [lia|].
    rewrite (IH fuel start (t ++ [EvTimer])), ticks_snoc; [reflexivity|lia| |].
    + intros j Hj. rewrite ticks_snoc. apply Hbefore. lia.
    + rewrite ticks_snoc. exact Hk.
Qed.

(** X18. When the document is unfocused at the start and the first timer
    callback that sees it focused comes before any callback has found more
    than 2000 ms gone, the handler delivers from there on, as it would in a
    document that was focused all along. *)
Theorem onCopyImageFromContextMenu_focus_regained (fuel : nat) (c : Cache)
    (srcUrl : option jsstring) (t : trace) (k : nat) :
  has_focus W t = false ->
  k < fuel ->
  (forall j, j < k ->
     has_focus W (t ++ repeat EvTimer (S j)) = false
     /\ (date_now W (t ++ repeat EvTimer (S j)) - date_now W t <= 2000)%Z) ->
  has_focus W (t ++ repeat EvTimer (S k)) = true ->
  onCopyImageFromContextMenu W fuel c srcUrl t
  = map_result Some (deliver W c srcUrl) (t ++ repeat EvTimer (S k)).
Proof.
  intros H0 Hfuel Hbefore Hk.
  pose proof (awaitFocus_regained k fuel (date_now W t) t Hfuel Hbefore Hk)
    as Hwait.
  unfold onCopyImageFromContextMenu.
  unfold bind at 1, ask. rewrite H0. cbn [negb].
  unfold bind at 1 2. rewrite Hwait. reflexivity.
Qed.

(** X19. The focus wait cannot outlast the first timer callback that
    finds more than 2000 ms gone: by then it has resolved, [true] or
    [false]. *)
Theorem awaitFocus_bounded (K fuel : nat) (start : Z) (t : trace) :
  K < fuel ->
  (date_now W (t ++ repeat EvTimer (S K)) - start > 2000)%Z ->
  exists k b,
    k <= K
    /\ awaitFocus W fuel start t = (Ok (Some b), t ++ repeat EvTimer (S k)).
Proof.
  revert fuel t. induction K as [|K IH]; intros fuel t Hfuel Hnow;
    (destruct fuel as [|fuel]; [lia|]);
    cbn [awaitFocus]; cbv [bind emit call ask ret];
    (destruct (has_focus W (t ++ [EvTimer]));
     [exists 0, true; split; [lia|reflexivity]|]);
    (destruct (date_now W (t ++ [EvTimer]) - start >? 2000)%Z eqn:Hgt;
     [exists 0, false; split; [lia|reflexivity]|]).
  - cbn [repeat] in Hnow. lia.
  - destruct (IH fuel (t ++ [EvTimer])) as (k & b & Hk & Hrun);
      [lia|rewrite ticks_snoc; exact Hnow|].
    exists (S k), b. split; [lia|]. rewrite Hrun, ticks_snoc. reflexivity.
Qed.

End Delivery.

(** ** The cache over a whole session *)

Section CacheSession.

Lemma page_run_app (p : Page) (evs1 evs2 : list page_event) :
  page_run p (evs1 ++ evs2) = page_run (page_run p evs1) evs2.
Proof. unfold page_run. apply foldl_app. Qed.

(** X21. Whatever happened before, the key of the slot is the URL of the
    last [prefetch] call that had a target: later calls for the same URL
    and resumed fetches, fresh or stale, do not move it. *)
Theorem cachedUrl_follows_last_target (p : Page)
    (before after : list page_event)
    (imgEl : option Element) (url : option jsstring) :
  has_target imgEl url ->
  forallb (keeps_key url) after = true ->
  cachedUrl (cache (page_run p (before ++ Interact imgEl url :: after)))
  = url.
Proof.
  intros Htarget Hafter.
  rewrite page_run_app. cbn [page_run foldl page_step].
  fold (page_run (prefetch imgEl url (page_run p before)) after).
  apply (keeps_key_run_spec url after); [|exact Hafter].
  apply prefetch_cachedUrl, Htarget.
Qed.

Lemma page_step_keeps_entry (u : option jsstring) (ev : page_event)
    (p : Page) :
  cachedUrl (cache p) = u ->
  is_Some (cachedBlob (cache p)) ->
  keeps_key u ev = true ->
  cachedUrl (cache (page_step p ev)) = u
  /\ is_Some (cachedBlob (cache (page_step p ev))).
Proof.
  intros Hkey Hblob Hev. destruct ev as [imgEl url|id r]; cbn [page_step].
  - cbn in Hev. apply bool_decide_eq_true_1 in Hev as ->.
    unfold prefetch. destruct (negb _ && negb _); [by auto|].
    rewrite (bool_decide_eq_true_2 _ (eq_sym Hkey)).
    rewrite (bool_decide_eq_true_2 _ Hblob). by auto.
  - destruct (prefetch_resume_spec id r p) as (Hurl & _ & Hsame).
    split; [congruence|].
    destruct Hsame as [->|(el & png & _ & _ & ->)]; [exact Hblob|by eexists].
Qed.

(** X22. A filled slot stays filled for its URL: calls for the same URL
    leave it alone, and resumed fetches can replace the blob only by
    another blob for that URL, never clear it. *)
Theorem cache_entry_survives (u : option jsstring) (evs : list page_event) :
  forall p : Page,
    cachedUrl (cache p) = u ->
    is_Some (cachedBlob (cache p)) ->
    forallb (keeps_key u) evs = true ->
    cachedUrl (cache (page_run p evs)) = u
    /\ is_Some (cachedBlob (cache (page_run p evs))).
Proof.
  induction evs as [|ev evs IH]; intros p Hkey Hblob Hevs; [by auto|].
  cbn [forallb] in Hevs. apply andb_prop in Hevs as [Hev Hevs].
  destruct (page_step_keeps_entry u ev p Hkey Hblob Hev) as [Hkey1 Hblob1].
  exact (IH (page_step p ev) Hkey1 Hblob1 Hevs).
Qed.

End CacheSession.

(** ** Finding the image *)

Section ImageSearch.

Variable d : Dom.
Variable src : Element -> jsstring.

Lemma find_in_ancestors_found (i : nat) :
  forall (n : nat) (el a : Element),
    nth_ancestor d el i = Some a ->
    i < n ->
    is_google_image d src a = true ->
    (forall j b, j < i -> nth_ancestor d el j = Some b ->
                 is_google_image d src b = false) ->
    find_in_ancestors d src n (Some el) = Some a.
Proof.
  induction i as [|i IH]; intros n el a Hnth Hn Ha Hcloser;
    (destruct n as [|n]; [lia|]); cbn [find_in_ancestors].
  - injection Hnth as ->. rewrite Ha. reflexivity.
  - rewrite (Hcloser 0 el ltac:(lia) eq_refl).
    cbn [nth_ancestor] in Hnth.
    destruct (parentElement d el) as [parent|] eqn:Hparent; [|discriminate].
    apply (IH n parent a Hnth ltac:(lia) Ha).
    intros j b Hj Hb. apply (Hcloser (S j) b ltac:(lia)).
    cbn [nth_ancestor]. rewrite Hparent. exact Hb.
Qed.

Lemma find_in_ancestors_none (n : nat) :
  forall el : Element,
    (forall j b, j < n -> nth_ancestor d el j = Some b ->
                 is_google_image d src b = false) ->
    find_in_ancestors d src n (Some el) = None.
Proof.
  induction n as [|n IH]; intros el Hnone; [reflexivity|].
  cbn [find_in_ancestors]. rewrite (Hnone 0 el ltac:(lia) eq_refl).
  destruct (parentElement d el) as [parent|] eqn:Hparent;
    [|destruct n; reflexivity].
  apply IH. intros j b Hj Hb. apply (Hnone (S j) b ltac:(lia)).
  cbn [nth_ancestor]. rewrite Hparent. exact Hb.
Qed.

Lemma findImageElement_found_here (el : Element) :
  is_google_image d src el = true ->
  findImageElement d src (Some el) = Some el.
Proof.
  intros Himg. unfold findImageElement. cbn [find_in_ancestors].
  rewrite Himg. reflexivity.
Qed.

(** X23. The image the user points at wins: when the element itself or
    one of its first 14 ancestors is a Google-hosted [IMG], the closest one
    is returned, whatever larger images the page has. *)
Theorem findImageElement_closest_ancestor (el a : Element) (i : nat) :
  nth_ancestor d el i = Some a ->
  i < 15 ->
  is_google_image d src a = true ->
  (forall j b, j < i -> nth_ancestor d el j = Some b ->
               is_google_image d src b = false) ->
  findImageElement d src (Some el) = Some a.
Proof.
  intros Hnth Hi Ha Hcloser. unfold findImageElement.
  rewrite (find_in_ancestors_found i 15 el a Hnth Hi Ha Hcloser).
  reflexivity.
Qed.

(** X24. The walk stops after 15 elements: when neither the element nor
    any of its first 14 ancestors is a Google-hosted [IMG], the result is
    the largest visible image of the page, even if an ancestor further up
    is such an image. *)
Theorem findImageElement_depth_bound (el : Element) :
  (forall j b, j < 15 -> nth_ancestor d el j = Some b ->
               is_google_image d src b = false) ->
  findImageElement d src (Some el) = largest_visible d.
Proof.
  intros Hnone. unfold findImageElement.
  rewrite (find_in_ancestors_none 15 el Hnone). reflexivity.
Qed.

Lemma gt_false_trans (a b c : double) :
  gt a b = false -> gt c b = true -> gt a c = false.
Proof.
  unfold gt. intros Hab Hcb.
  apply bool_decide_eq_false_1 in Hab. apply bool_decide_eq_true_1 in Hcb.
  apply bool_decide_eq_false_2. intros Hca.
  apply Hab. exact (Qcanon.Qclt_trans _ _ _ Hcb Hca).
Qed.

Lemma gt_irrefl (a : double) : gt a a = false.
Proof.
  unfold gt. apply bool_decide_eq_false_2. intros H.
  exact (Qcanon.Qclt_not_eq _ _ H eq_refl).
Qed.

Lemma gt_positive (a b : double) :
  gt (Qc_of_Z 0) b = false -> gt a b = true -> gt a (Qc_of_Z 0) = true.
Proof.
  unfold gt. intros Hb Hab.
  apply bool_decide_eq_false_1 in Hb. apply bool_decide_eq_true_1 in Hab.
  apply bool_decide_eq_true_2.
  exact (Qcanon.Qcle_lt_trans _ _ _ (Qcanon.Qcnot_lt_le _ _ Hb) Hab).
Qed.

Lemma larger_best_of (seen : list Element) (acc : option Element * double)
    (img : Element) :
  best_of d seen acc -> best_of d (seen ++ [img]) (larger d acc img).
Proof.
  intros (Hpos & Hmax & Hbest). unfold larger.
  destruct (gt (rect_area d img) (snd acc)) eqn:Harea; cbn [andb].
  - destruct (gt (rect_width d img) (Qc_of_Z 100)) eqn:Hwidth.
    + split; [|split]; cbn [fst snd].
      * exact (gt_false_trans _ _ _ Hpos Harea).
      * intros x [Hx| ->%list_elem_of_singleton]%elem_of_app Hw;
          [|apply gt_irrefl].
        exact (gt_false_trans _ _ _ (Hmax x Hx Hw) Harea).
      * split; [apply elem_of_app; right; apply list_elem_of_singleton;
                reflexivity|].
        split; [exact Hwidth|]. split; [|reflexivity].
        exact (gt_positive _ _ Hpos Harea).
    + split; [exact Hpos|]. split.
      * intros x [Hx| ->%list_elem_of_singleton]%elem_of_app Hw;
          [exact (Hmax x Hx Hw)|congruence].
      * destruct (fst acc); [|exact Hbest].
        destruct Hbest as (Hin & ?). split; [|assumption].
        apply elem_of_app. by left.
  - split; [exact Hpos|]. split.
    + intros x [Hx| ->%list_elem_of_singleton]%elem_of_app Hw;
        [exact (Hmax x Hx Hw)|exact Harea].
    + destruct (fst acc); [|exact Hbest].
      destruct Hbest as (Hin & ?). split; [|assumption].
      apply elem_of_app. by left.
Qed.

Lemma foldl_best_of (imgs seen : list Element)
    (acc : option Element * double) :
  best_of d seen acc -> best_of d (seen ++ imgs) (foldl (larger d) acc imgs).
Proof.
  revert seen acc. induction imgs as [|img imgs IH]; intros seen acc Hacc.
  - rewrite app_nil_r. exact Hacc.
  - cbn [foldl]. rewrite (cons_middle img seen imgs), app_assoc.
    apply IH, larger_best_of, Hacc.
Qed.

Lemma largest_visible_best_of :
  best_of d (google_images d)
    (foldl (larger d) (None, Qc_of_Z 0) (google_images d)).
Proof.
  apply (foldl_best_of (google_images d) []).
  split; [apply gt_irrefl|]. split; [|reflexivity].
  intros img Himg. by apply elem_of_nil in Himg.
Qed.

(** X25. The fallback is the largest visible image: it is one of the
    Google-hosted images of the page, wider than 100 and of positive area,
    and no such image wider than 100 has a larger area. *)
Theorem largest_visible_is_largest (best : Element) :
  largest_visible d = Some best ->
  best ∈ google_images d
  /\ gt (rect_width d best) (Qc_of_Z 100) = true
  /\ gt (rect_area d best) (Qc_of_Z 0) = true
  /\ forall img,
       img ∈ google_images d ->
       gt (rect_width d img) (Qc_of_Z 100) = true ->
       gt (rect_area d img) (rect_area d best) = false.
Proof.
  unfold largest_visible. intros Hbest.
  destruct largest_visible_best_of as (_ & Hmax & Hacc).
  rewrite Hbest in Hacc. destruct Hacc as (Hin & Hw & Ha & Harea).
  rewrite Harea in Hmax. auto.
Qed.

(** X26. The fallback finds nothing only when there is nothing to find:
    then no Google-hosted image of the page is both wider than 100 and of
    positive area. *)
Theorem largest_visible_none (img : Element) :
  largest_visible d = None ->
  img ∈ google_images d ->
  gt (rect_width d img) (Qc_of_Z 100) = true ->
  gt (rect_area d img) (Qc_of_Z 0) = false.
Proof.
  unfold largest_visible. intros Hnone Himg Hwidth.
  destruct largest_visible_best_of as (_ & Hmax & Hacc).
  rewrite Hnone in Hacc. rewrite Hacc in Hmax. exact (Hmax img Himg Hwidth).
Qed.

End ImageSearch.

(** ** Interactions and the Cmd+C handler *)

Section Interaction.

Variable W : World.
Variable d : Dom.

(** X27. Two renditions of one photo share the slot.  When the slot
    holds a blob under the normalized URL of a photo, pointing at an image
    of the same photo in another size is a cache hit: nothing is cleared
    and no fetch is started. *)
Theorem onInteract_other_rendition (el : Element) (p : Page) (t : trace)
    (pre rest : jsstring) (digit : code_unit) :
  is_google_image d (el_src W t) el = true ->
  el_src W t el = pre ++ js "=w" ++ digit :: rest ->
  includes pre (js "=w") = false ->
  is_digit digit = true ->
  forallb not_line_terminator rest = true ->
  cachedUrl (cache p) = Some (pre ++ js "=w2048-h2048-no") ->
  is_Some (cachedBlob (cache p)) ->
  onInteract W d (Some el) p t = (Ok p, t).
Proof.
  intros Himg Hsrc Hpre Hdigit Hrest Hkey Hblob.
  unfold onInteract, getUrlFromElement. cbv [bind ask ret].
  rewrite (findImageElement_found_here d (el_src W t) el Himg).
  rewrite Hsrc.
  destruct (pre ++ js "=w" ++ digit :: rest) as [|c0 s0] eqn:E;
    [by destruct pre|].
  rewrite <- E, (upgradeUrl_cut_w pre rest digit Hpre Hdigit Hrest).
  unfold prefetch. destruct (negb _ && negb _); [reflexivity|].
  rewrite (bool_decide_eq_true_2 _ (eq_sym Hkey)).
  rewrite (bool_decide_eq_true_2 _ Hblob). reflexivity.
Qed.

Variable K : Keyboard.


Lemma drop_white_space_head (s : jsstring) :
  existsb (fun c => negb (is_white_space c)) s = true ->
  exists c r, drop_white_space s = c :: r /\ is_white_space c = false.
Proof.
  induction s as [|c s IH]; [discriminate|].
  cbn [existsb drop_white_space].
  destruct (is_white_space c) eqn:Hc; cbn [negb orb]; [exact IH|].
  intros _. by exists c, s.
Qed.

Lemma existsb_snoc_black (s : jsstring) (c : code_unit) :
  is_white_space c = false ->
  existsb (fun c => negb (is_white_space c)) (s ++ [c]) = true.
Proof.
  intros Hc. rewrite existsb_app. cbn. rewrite Hc. apply orb_true_r.
Qed.

(** [trim] leaves something exactly of a string that has a character
    other than white space. *)
Lemma trim_not_empty (s : jsstring) :
  existsb (fun c => negb (is_white_space c)) s = true ->
  0 < length (trim s).
Proof.
  intros H. unfold trim.
  destruct (drop_white_space_head s H) as (c & r & -> & Hc).
  rewrite reverse_cons.
  destruct (drop_white_space_head _ (existsb_snoc_black (reverse r) c Hc))
    as (c' & r' & -> & _).
  rewrite length_reverse. cbn. lia.
Qed.


(** X28. Copying text is left to the browser: with any key other than
    [c] with Ctrl or Cmd, or with any selection that has a character
    other than white space, the handler returns before [preventDefault()]
    and does nothing. *)
Theorem onKeydown_keeps_text_copy (e : KeyEvent) (c : Cache) (t : trace) :
  (ctrlKey e || metaKey e) && str_eqb (key e) (js "c") = false
  \/ (exists s,
        selection_text K t = Some s
        /\ existsb (fun ch => negb (is_white_space ch)) s = true) ->
  onKeydown W d K e c t = (Ok KeyIgnored, t).
Proof.
  unfold onKeydown.
  destruct ((ctrlKey e || metaKey e) && str_eqb (key e) (js "c"));
    cbn [negb]; [|reflexivity].
  intros [?|(s & Hs & Hblack)]; [discriminate|].
  cbv [bind ask ret]. rewrite Hs.
  rewrite (bool_decide_eq_true_2 _ (trim_not_empty s Hblack)). reflexivity.
Qed.




End Interaction.

(** * The further properties on the sample pages *)

Section MoreSamples.

Lemma upgradeUrl_rewrites_w_witness :
  upgradeUrl (photo ++ js "=w" ++ 52%N :: js "00-h300")
  = photo ++ js "=w2048-h2048-no".
Proof.
  apply (upgradeUrl_rewrites_w photo (js "00-h300") 52%N); reflexivity.
Defined.

Lemma upgradeUrl_rewrites_s_witness :
  upgradeUrl (photo ++ js "=s" ++ 57%N :: js "6-c") = photo ++ js "=s2048-no".
Proof.
  apply (upgradeUrl_rewrites_s photo (js "6-c") 57%N); reflexivity.
Defined.

Lemma upgradeUrl_keeps_prefix_witness :
  exists q', upgradeUrl (photo ++ js "=w400-h300") = photo ++ q'.
Proof. apply (upgradeUrl_keeps_prefix photo (js "=w400-h300")). reflexivity. Defined.

Lemma variant_url_same_witness : variant_url url_A = url_A.
Proof. apply (variant_url_same url_A). reflexivity. Defined.

Lemma onFetchImage_always_replies_witness :
  exists reply,
    fst (onFetchImage (sample_world net_offline never_focused) url_A [])
    = Ok (Some reply).
Proof.
  exact (onFetchImage_always_replies (sample_world net_offline never_focused)
           url_A [] url_A_not_empty).
Defined.

Lemma onFetchImage_requests_witness :
  snd (onFetchImage (sample_world net_403_then_ok never_focused) url_gm [])
  = [EvNetFetch url_gm true; EvNetFetch url_A true].
Proof.
  exact (onFetchImage_requests (sample_world net_403_then_ok never_focused)
           url_gm [] url_gm_not_empty).
Defined.

Lemma onFetchImage_reports_status_witness :
  onFetchImage (sample_world net_404 never_focused) url_A []
  = (Ok (Some (ReplyError (js "HTTP 404"))), [EvNetFetch url_A true]).
Proof.
  apply (onFetchImage_reports_status (sample_world net_404 never_focused)
           url_A [] {| status := 404; body := Ok jpeg_blob |}).
  - exact url_A_not_empty.
  - reflexivity.
  - reflexivity.
  - intros H. discriminate H.
Defined.

Lemma onFetchImage_success_is_ok_witness :
  exists (r : Response) (blob : Blob),
    resp_ok r = true
    /\ body r = Ok blob
    /\ read_as_data_url (sample_world net_403_then_ok never_focused)
         [EvNetFetch url_gm true; EvNetFetch url_A true] blob
       = Some (js "data:image/jpeg;base64,/9j/")
    /\ (first_response (sample_world net_403_then_ok never_focused) url_gm []
        = Some r
        \/ exists r1,
             first_response (sample_world net_403_then_ok never_focused)
               url_gm [] = Some r1
             /\ status r1 = 403%N
             /\ net_fetch (sample_world net_403_then_ok never_focused)
                  ([] ++ first_requests
                           (sample_world net_403_then_ok never_focused)
                           url_gm [])
                  (variant_url url_gm) true = Ok r).
Proof.
  apply (onFetchImage_success_is_ok
           (sample_world net_403_then_ok never_focused) url_gm []).
  vm_compute. reflexivity.
Defined.

Lemma fetchImageBlob_throws_only_aggregate_witness :
  Error (js "All fetch methods failed") = all_methods_failed.
Proof.
  apply (fetchImageBlob_throws_only_aggregate
           (sample_world net_offline never_focused) (Some 0) (Some url_A) []).
  reflexivity.
Defined.

Lemma fetchImageBlob_element_first_witness :
  fetchImageBlob readable_page (Some 1) (Some url_A) []
  = (Ok png_blob, [EvGrab (Some 1)]).
Proof.
  apply (fetchImageBlob_element_first readable_page (Some 1) (Some url_A) []);
    [by eexists|reflexivity].
Defined.

Lemma fetchImageBlob_after_failed_element_witness :
  fetchImageBlob (sample_world net_403_then_ok never_focused)
    (Some 1) (Some url_A) []
  = fetchImageBlob (sample_world net_403_then_ok never_focused)
      None (Some url_A) [EvGrab (Some 1)].
Proof.
  apply (fetchImageBlob_after_failed_element
           (sample_world net_403_then_ok never_focused)
           (Some 1) (Some url_A) []);
    [by eexists|reflexivity].
Defined.

Lemma ensurePng_result_is_png_witness :
  blob_type png_blob = js "image/png"
  /\ forall t',
       ensurePng (sample_world net_offline never_focused) png_blob t'
       = (Ok png_blob, t').
Proof.
  apply (ensurePng_result_is_png (sample_world net_offline never_focused)
           jpeg_blob png_blob []).
  - intros t0 bmp b [= <-]. reflexivity.
  - reflexivity.
Defined.


Lemma onCopyImageFromContextMenu_cache_hit_witness :
  onCopyImageFromContextMenu (sample_world net_offline always_focused)
    0 warm_cache None []
  = (Ok (Some tt),
     [EvClipboardWrite png_blob; EvToast toast_copied false;
      EvSendResponse true]).
Proof.
  exact (onCopyImageFromContextMenu_cache_hit
           (sample_world net_offline always_focused) 0 warm_cache None []
           png_blob eq_refl eq_refl).
Defined.

Lemma onCopyImageFromContextMenu_focus_regained_witness :
  onCopyImageFromContextMenu (sample_world net_offline focused_at_third)
    50 warm_cache None []
  = map_result Some
      (deliver (sample_world net_offline focused_at_third) warm_cache None)
      (repeat EvTimer 3).
Proof.
  apply (onCopyImageFromContextMenu_focus_regained
           (sample_world net_offline focused_at_third)
           50 warm_cache None [] 2).
  - reflexivity.
  - lia.
  - intros [|[|j]] Hj; [| |lia];
      (split; [reflexivity|vm_compute; intros H; discriminate H]).
  - reflexivity.
Defined.

Lemma awaitFocus_bounded_witness :
  exists k b,
    k <= 40
    /\ awaitFocus (sample_world net_offline focused_at_third) 50
         1700000000000 []
       = (Ok (Some b), repeat EvTimer (S k)).
Proof.
  apply (awaitFocus_bounded (sample_world net_offline focused_at_third)
           40 50 1700000000000 []).
  - lia.
  - vm_compute. reflexivity.
Defined.

Lemma prefetch_stale_call_never_stored_witness :
  let pA := prefetch (Some 0) (Some url_A) empty_page in
  let p := page_run (prefetch (Some 1) (Some url_B) pA) double_click in
  cachedUrl (cache p) = Some url_B
  /\ (cachedBlob (cache p) = None
      \/ exists id png,
           cachedBlob (cache p) = Some png
           /\ Settled id (Ok png) ∈ double_click
           /\ (pA = empty_page \/ id <> next_id empty_page)).
Proof.
  apply (prefetch_stale_call_never_stored empty_page
           (Some 0) (Some url_A) (Some 1) (Some url_B) double_click).
  - exact url_A_not_B.
  - left. by eexists.
  - left. by eexists.
  - reflexivity.
Defined.

Lemma cachedUrl_follows_last_target_witness :
  cachedUrl
    (cache (page_run warm_page
              ([Interact (Some 0) (Some url_A); Settled 1 (Ok png_blob)]
               ++ Interact (Some 1) (Some url_B)
                    :: [Settled 1 (Ok png_blob); Settled 2 (Ok jpeg_blob)])))
  = Some url_B.
Proof.
  apply (cachedUrl_follows_last_target warm_page
           [Interact (Some 0) (Some url_A); Settled 1 (Ok png_blob)]
           [Settled 1 (Ok png_blob); Settled 2 (Ok jpeg_blob)]
           (Some 1) (Some url_B)).
  - left. by eexists.
  - reflexivity.
Defined.

Lemma cache_entry_survives_witness :
  cachedUrl (cache (page_run warm_page
                      [Interact (Some 7) (cachedUrl warm_cache);
                       Settled 0 (Ok jpeg_blob)]))
  = cachedUrl warm_cache
  /\ is_Some (cachedBlob (cache (page_run warm_page
                                   [Interact (Some 7) (cachedUrl warm_cache);
                                    Settled 0 (Ok jpeg_blob)]))).
Proof.
  apply (cache_entry_survives (cachedUrl warm_cache)
           [Interact (Some 7) (cachedUrl warm_cache);
            Settled 0 (Ok jpeg_blob)] warm_page).
  - reflexivity.
  - by eexists.
  - reflexivity.
Defined.

Lemma findImageElement_closest_ancestor_witness :
  findImageElement sample_dom sample_src (Some 0) = Some 1.
Proof.
  apply (findImageElement_closest_ancestor sample_dom sample_src 0 1 1).
  - reflexivity.
  - lia.
  - reflexivity.
  - intros [|j] b Hj Hb; [|lia]. injection Hb as <-. reflexivity.
Defined.

Lemma findImageElement_depth_bound_witness :
  findImageElement sample_dom sample_src (Some 10)
  = largest_visible sample_dom.
Proof.
  apply (findImageElement_depth_bound sample_dom sample_src 10).
  intros [|j] b _ Hb; [|discriminate Hb]. injection Hb as <-. reflexivity.
Defined.

Lemma largest_visible_is_largest_witness :
  4 ∈ google_images sample_dom
  /\ gt (rect_width sample_dom 4) (Qc_of_Z 100) = true
  /\ gt (rect_area sample_dom 4) (Qc_of_Z 0) = true
  /\ forall img,
       img ∈ google_images sample_dom ->
       gt (rect_width sample_dom img) (Qc_of_Z 100) = true ->
       gt (rect_area sample_dom img) (rect_area sample_dom 4) = false.
Proof.
  apply (largest_visible_is_largest sample_dom 4). vm_compute. reflexivity.
Defined.

Lemma largest_visible_none_witness :
  gt (rect_area collapsed_dom 6) (Qc_of_Z 0) = false.
Proof.
  apply (largest_visible_none collapsed_dom 6).
  - vm_compute. reflexivity.
  - apply list_elem_of_singleton. reflexivity.
  - vm_compute. reflexivity.
Defined.

Lemma onInteract_other_rendition_witness :
  onInteract (sample_world net_offline never_focused) sample_dom (Some 1)
    warm_page []
  = (Ok warm_page, []).
Proof.
  apply (onInteract_other_rendition (sample_world net_offline never_focused)
           sample_dom 1 warm_page [] photo (js "00-h300") 52%N);
    try reflexivity.
  exists png_blob. reflexivity.
Defined.

Lemma onKeydown_keeps_text_copy_witness :
  onKeydown (sample_world net_offline never_focused) sample_dom
    text_selected copy_chord warm_cache []
  = (Ok KeyIgnored, []).
Proof.
  apply (onKeydown_keeps_text_copy
           (sample_world net_offline never_focused) sample_dom
           text_selected copy_chord warm_cache []).
  right. exists (js " some text "). split; reflexivity.
Defined.


End MoreSamples.
